(** * A proof-of-work ledger: model of [src/main.py] and its properties

    The development embeds the ledger engine of the repository (the class
    [Blockchain] and the request handlers around it) and proves the
    properties its specification states about it.

    Layout:
    - [SHA256]: the digest function behind [hashlib.sha256];
    - Python values, exceptions and the two small monads the code runs in;
    - the text encodings the code relies on ([str] of an [int], JSON text
      of a block);
    - the methods of [Blockchain] and the handlers, in source order;
    - the theorems. *)

From Stdlib Require Import ZArith QArith List String Ascii Bool Lia DecimalString.
Import ListNotations.
Set Warnings "-register-all".
Open Scope string_scope.
Open Scope list_scope.
Open Scope Z_scope.

Infix "+++" := append (right associativity, at level 60).

(* ================================================================== *)
(** ** SHA-256 (FIPS 180-4), the function behind [hashlib.sha256]     *)
(* ================================================================== *)

Module SHA256.

(** 32-bit words are integers kept below [2^32] by masking. *)
Definition w32 (x : Z) : Z := Z.land x 0xffffffff.
Definition add32 (x y : Z) : Z := w32 (x + y).
Definition rotr (n x : Z) : Z :=
  Z.lor (Z.shiftr x n) (w32 (Z.shiftl x (32 - n))).
Definition shr (n x : Z) : Z := Z.shiftr x n.

Definition Ch (x y z : Z) : Z :=
  Z.lxor (Z.land x y) (Z.land (Z.lxor x 0xffffffff) z).
Definition Maj (x y z : Z) : Z :=
  Z.lxor (Z.lxor (Z.land x y) (Z.land x z)) (Z.land y z).
Definition Sigma0 (x : Z) : Z := Z.lxor (Z.lxor (rotr 2 x) (rotr 13 x)) (rotr 22 x).
Definition Sigma1 (x : Z) : Z := Z.lxor (Z.lxor (rotr 6 x) (rotr 11 x)) (rotr 25 x).
Definition sigma0 (x : Z) : Z := Z.lxor (Z.lxor (rotr 7 x) (rotr 18 x)) (shr 3 x).
Definition sigma1 (x : Z) : Z := Z.lxor (Z.lxor (rotr 17 x) (rotr 19 x)) (shr 10 x).

(** The constants are derived as the standard defines them, from the
    first sixty-four prime numbers. *)
Definition is_prime (p : Z) : bool :=
  (1 <? p) &&
  forallb (fun d => negb (p mod (Z.of_nat d) =? 0)) (seq 2 (Z.to_nat p - 2)).

Definition primes : list Z :=
  Eval vm_compute in filter is_prime (map Z.of_nat (seq 0 312)).

(** The integer cube root, found bit by bit from bit [bits - 1] down. *)
Fixpoint cbrt_bits (bits : nat) (n r : Z) : Z :=
  match bits with
  | O => r
  | S b =>
      let r' := r + 2 ^ Z.of_nat b in
      cbrt_bits b n (if r' * r' * r' <=? n then r' else r)
  end.

(** The first 32 bits of the fractional part of a cube root, of a square
    root. *)
Definition frac_cbrt (p : Z) : Z := w32 (cbrt_bits 36 (p * 2 ^ 96) 0).
Definition frac_sqrt (p : Z) : Z := w32 (Z.sqrt (p * 2 ^ 64)).

Definition K : list Z := Eval vm_compute in map frac_cbrt primes.

(** The eight working registers, also the shape of the chaining value. *)
Record regs := Regs
  { ra : Z; rb : Z; rc : Z; rd : Z; re : Z; rf : Z; rg : Z; rh : Z }.

Definition H0 : regs :=
  Eval vm_compute in
    Regs (frac_sqrt 2) (frac_sqrt 3) (frac_sqrt 5) (frac_sqrt 7)
         (frac_sqrt 11) (frac_sqrt 13) (frac_sqrt 17) (frac_sqrt 19).

(** The message schedule is produced on the fly from a window holding the
    sixteen most recent words, oldest first. *)
Definition next_w (win : list Z) : Z :=
  add32 (add32 (sigma1 (nth 14 win 0)) (nth 9 win 0))
        (add32 (sigma0 (nth 1 win 0)) (nth 0 win 0)).

Definition round (r : regs) (k w : Z) : regs :=
  let t1 := add32 (add32 (add32 (rh r) (Sigma1 (re r)))
                         (add32 (Ch (re r) (rf r) (rg r)) k)) w in
  let t2 := add32 (Sigma0 (ra r)) (Maj (ra r) (rb r) (rc r)) in
  Regs (add32 t1 t2) (ra r) (rb r) (rc r) (add32 (rd r) t1) (re r) (rf r) (rg r).

Fixpoint rounds (ks : list Z) (win : list Z) (r : regs) : regs :=
  match ks with
  | [] => r
  | k :: ks' => rounds ks' (tl win ++ [next_w win]) (round r k (nth 0 win 0))
  end.

Definition compress (h : regs) (blk : list Z) : regs :=
  let r := rounds K blk h in
  Regs (add32 (ra h) (ra r)) (add32 (rb h) (rb r))
       (add32 (rc h) (rc r)) (add32 (rd h) (rd r))
       (add32 (re h) (re r)) (add32 (rf h) (rf r))
       (add32 (rg h) (rg r)) (add32 (rh h) (rh r)).

(** The [n] low bytes of [x], most significant first. *)
Definition be_bytes (n : nat) (x : Z) : list Z :=
  map (fun i => Z.land (Z.shiftr x (8 * Z.of_nat i)) 0xff) (rev (seq 0 n)).

(** Padding: a [0x80] byte, zero bytes up to 56 modulo 64, and the bit
    length on eight bytes. *)
Definition pad (msg : list Z) : list Z :=
  let l := Z.of_nat (List.length msg) in
  msg ++ [0x80] ++ repeat 0 (Z.to_nat ((55 - l) mod 64)) ++ be_bytes 8 (8 * l).

Fixpoint words (fuel : nat) (bs : list Z) : list Z :=
  match fuel, bs with
  | S f, b0 :: b1 :: b2 :: b3 :: rest =>
      Z.lor (Z.shiftl b0 24) (Z.lor (Z.shiftl b1 16) (Z.lor (Z.shiftl b2 8) b3))
      :: words f rest
  | _, _ => []
  end.

Fixpoint blocks (fuel : nat) (h : regs) (ws : list Z) : regs :=
  match fuel with
  | O => h
  | S f =>
      match ws with
      | [] => h
      | _ => blocks f (compress h (firstn 16 ws)) (skipn 16 ws)
      end
  end.

Definition digest (msg : list Z) : regs :=
  let p := pad msg in
  let ws := words (List.length p) p in
  blocks (List.length ws) H0 ws.

Definition hex_digit (d : Z) : ascii :=
  ascii_of_N (Z.to_N (if d <? 10 then 48 + d else 87 + d)).

Definition nibble (x i : Z) : ascii := hex_digit (Z.land (Z.shiftr x (4 * i)) 0xf).

Definition hex_word (x : Z) (k : string) : string :=
  String (nibble x 7) (String (nibble x 6) (String (nibble x 5) (String (nibble x 4)
  (String (nibble x 3) (String (nibble x 2) (String (nibble x 1) (String (nibble x 0) k))))))).

(** [hashlib.sha256(msg).hexdigest()]: 64 lower-case hexadecimal digits. *)
Definition hexdigest (msg : list Z) : string :=
  let r := digest msg in
  hex_word (ra r) (hex_word (rb r) (hex_word (rc r) (hex_word (rd r)
  (hex_word (re r) (hex_word (rf r) (hex_word (rg r) (hex_word (rh r) EmptyString))))))).

End SHA256.

(* ================================================================== *)
(** ** Python values                                                   *)
(* ================================================================== *)

(** Text: a Python [str] is a [string] whose characters are the code
    points below 256.  [str.encode()] is the identity on the ASCII text the
    program hashes (decimal digits, and JSON text written with
    [ensure_ascii]). *)
Fixpoint encode (s : string) : list Z :=
  match s with
  | EmptyString => []
  | String c s' => Z.of_N (N_of_ascii c) :: encode s'
  end.

(** A Python [float].  The program looks at a float in two ways only: it
    writes it as text (a block's timestamp, in [block.json()]), and it
    compares it with a number (a peer's reported length).  The model keeps
    both views: the exact value, and [repr] of the float. *)
Inductive fval :=
| Finite (q : Q)
| PosInf
| NegInf
| NaN.

Record pyfloat := Float { fvalue : fval; frepr : string }.

Record Transaction := mkTransaction
  { sender : string;
    recipient : string;
    amount : Z }.

Record Block := mkBlock
  { index : Z;
    timestamp : pyfloat;
    transactions : list Transaction;
    proof : Z;
    previous_hash : string }.

(** The values that flow through the chain variables: what
    [response.json()] can produce, and [Block] objects. *)
Inductive pyval :=
| PNone
| PBool (b : bool)
| PInt (z : Z)
| PFloat (f : pyfloat)
| PStr (s : string)
| PList (l : list pyval)
| PDict (d : list (string * pyval))
| PBlock (b : Block).

(** Exceptions the modelled code can raise. *)
Inductive exn :=
| IndexError
| KeyError
| TypeError
| AttributeError
| ValidationError
| RequestException
| JSONDecodeError.

(** Outcome of a computation: a value, an exception, or the fuel given to
    an unbounded loop ran out before it finished. *)
Inductive result (A : Type) :=
| Ok (a : A)
| Raise (e : exn)
| OutOfFuel.
Arguments Ok {A} a.
Arguments Raise {A} e.
Arguments OutOfFuel {A}.

Definition rbind {A B} (c : result A) (k : A -> result B) : result B :=
  match c with
  | Ok a => k a
  | Raise e => Raise e
  | OutOfFuel => OutOfFuel
  end.

Notation "'let*' x ':=' c 'in' k" := (rbind c (fun x => k))
  (at level 61, x pattern, c at next level, right associativity).

(** The state-and-exception monad of the methods of [Blockchain]: what a
    method did to the object before it raised stays done. *)
Definition state (S A : Type) : Type := S -> result A * S.

Definition ret {S A} (a : A) : state S A := fun s => (Ok a, s).

Definition bind {S A B} (c : state S A) (k : A -> state S B) : state S B :=
  fun s =>
    match c s with
    | (Ok a, s') => k a s'
    | (Raise e, s') => (Raise e, s')
    | (OutOfFuel, s') => (OutOfFuel, s')
    end.

Definition lift {S A} (r : result A) : state S A := fun s => (r, s).
Definition gets {S A} (f : S -> A) : state S A := fun s => (Ok (f s), s).
Definition modify {S} (f : S -> S) : state S unit := fun s => (Ok tt, f s).

Notation "x <- c ;; k" := (bind c (fun x => k))
  (at level 61, c at next level, right associativity).

(** *** Sequences, attributes, truth values and comparisons *)

Fixpoint chars (s : string) : list pyval :=
  match s with
  | EmptyString => []
  | String c s' => PStr (String c EmptyString) :: chars s'
  end.

(** [l[i]] on a list or a string, negative indices counting from the end. *)
Definition seq_item (l : list pyval) (i : Z) : result pyval :=
  let n := Z.of_nat (List.length l) in
  let j := if i <? 0 then i + n else i in
  if (0 <=? j) && (j <? n) then
    match nth_error l (Z.to_nat j) with
    | Some x => Ok x
    | None => Raise IndexError
    end
  else Raise IndexError.

(** [o[i]] for an integer [i].  The keys of a parsed JSON object are
    strings, so an integer is never one of them. *)
Definition py_getitem (o : pyval) (i : Z) : result pyval :=
  match o with
  | PList l => seq_item l i
  | PStr s => seq_item (chars s) i
  | PDict _ => Raise KeyError
  | _ => Raise TypeError
  end.

Fixpoint assoc (k : string) (d : list (string * pyval)) : option pyval :=
  match d with
  | [] => None
  | (k', v) :: d' => if String.eqb k k' then Some v else assoc k d'
  end.

(** [o[k]] for a string [k]. *)
Definition py_getkey (o : pyval) (k : string) : result pyval :=
  match o with
  | PDict d => match assoc k d with Some v => Ok v | None => Raise KeyError end
  | _ => Raise TypeError
  end.

(** [len(o)]. *)
Definition py_len (o : pyval) : result Z :=
  match o with
  | PList l => Ok (Z.of_nat (List.length l))
  | PStr s => Ok (Z.of_nat (String.length s))
  | PDict d => Ok (Z.of_nat (List.length d))
  | _ => Raise TypeError
  end.

(** [o.append(x)]: only lists have the method; the result is the list
    after the call. *)
Definition py_append (o x : pyval) : result pyval :=
  match o with
  | PList l => Ok (PList (l ++ [x]))
  | _ => Raise AttributeError
  end.

(** [o.proof], [o.previous_hash]: attributes of [Block] only. *)
Definition getattr_proof (o : pyval) : result Z :=
  match o with
  | PBlock b => Ok (proof b)
  | _ => Raise AttributeError
  end.

Definition getattr_previous_hash (o : pyval) : result string :=
  match o with
  | PBlock b => Ok (previous_hash b)
  | _ => Raise AttributeError
  end.

(** [o.index + 1]: lists and strings have a method called [index], which
    cannot be added to a number. *)
Definition index_plus_1 (o : pyval) : result Z :=
  match o with
  | PBlock b => Ok (index b + 1)
  | PList _ | PStr _ => Raise TypeError
  | _ => Raise AttributeError
  end.

Definition Qzero (q : Q) : bool := Qnum q =? 0.

(** [bool(o)]. *)
Definition py_truthy (o : pyval) : bool :=
  match o with
  | PNone => false
  | PBool b => b
  | PInt z => negb (z =? 0)
  | PFloat f => match fvalue f with Finite q => negb (Qzero q) | _ => true end
  | PStr s => negb (String.eqb s EmptyString)
  | PList l => match l with [] => false | _ => true end
  | PDict d => match d with [] => false | _ => true end
  | PBlock _ => true
  end.

(** Numbers compare by value, whatever their type; [bool] is an [int]. *)
Definition py_number (o : pyval) : option fval :=
  match o with
  | PBool b => Some (Finite (inject_Z (if b then 1 else 0)))
  | PInt z => Some (Finite (inject_Z z))
  | PFloat f => Some (fvalue f)
  | _ => None
  end.

Definition fval_gt (a b : fval) : bool :=
  match a, b with
  | NaN, _ | _, NaN => false
  | NegInf, _ => false
  | _, PosInf => false
  | PosInf, _ => true
  | _, NegInf => true
  | Finite p, Finite q => negb (Qle_bool p q)
  end.

(** [a > b]; ordering a number against anything else is a [TypeError]. *)
Definition py_gt (a b : pyval) : result bool :=
  match py_number a, py_number b with
  | Some x, Some y => Ok (fval_gt x y)
  | _, _ => Raise TypeError
  end.

(* ================================================================== *)
(** ** Text encodings                                                  *)
(* ================================================================== *)

(** [str(n)] and [f"{n}"] for an [int]: decimal digits, a minus sign
    for negative numbers. *)
Definition str_of_int (z : Z) : string := NilZero.string_of_int (Z.to_int z).

Definition dquote : string := String (ascii_of_N 34) EmptyString.

(** One character of a JSON string as [json.dumps] writes it with its
    default [ensure_ascii]. *)
Definition json_escape_char (c : ascii) : string :=
  let n := Z.of_N (N_of_ascii c) in
  if n =? 34 then "\" +++ dquote
  else if n =? 92 then "\\"
  else if n =? 10 then "\n"
  else if n =? 13 then "\r"
  else if n =? 9 then "\t"
  else if n =? 8 then "\b"
  else if n =? 12 then "\f"
  else if (n <? 32) || (126 <? n) then
    "\u00" +++ String (SHA256.nibble n 1) (String (SHA256.nibble n 0) EmptyString)
  else String c EmptyString.

Fixpoint json_escape (s : string) : string :=
  match s with
  | EmptyString => EmptyString
  | String c s' => json_escape_char c +++ json_escape s'
  end.

Definition json_str (s : string) : string := dquote +++ json_escape s +++ dquote.

Definition json_key (k : string) : string := dquote +++ k +++ dquote +++ ": ".

Definition transaction_json (t : Transaction) : string :=
  "{" +++ json_key "sender" +++ json_str (sender t) +++ ", "
      +++ json_key "recipient" +++ json_str (recipient t) +++ ", "
      +++ json_key "amount" +++ str_of_int (amount t) +++ "}".

(** A float as [json.dumps] writes it: its [repr] when it is finite. *)
Definition json_float (f : pyfloat) : string :=
  match fvalue f with
  | Finite _ => frepr f
  | PosInf => "Infinity"
  | NegInf => "-Infinity"
  | NaN => "NaN"
  end.

Fixpoint json_join (items : list string) : string :=
  match items with
  | [] => EmptyString
  | [x] => x
  | x :: rest => x +++ ", " +++ json_join rest
  end.

(** [block.json()]: the fields in declaration order, with the default
    separators of [json.dumps]. *)
Definition block_json (b : Block) : string :=
  "{" +++ json_key "index" +++ str_of_int (index b) +++ ", "
      +++ json_key "timestamp" +++ json_float (timestamp b) +++ ", "
      +++ json_key "transactions"
      +++ "[" +++ json_join (map transaction_json (transactions b)) +++ "]" +++ ", "
      +++ json_key "proof" +++ str_of_int (proof b) +++ ", "
      +++ json_key "previous_hash" +++ json_str (previous_hash b) +++ "}".

(* ================================================================== *)
(** ** class Blockchain                                                *)
(* ================================================================== *)

(** The object: [chain] holds whatever was last assigned to [self.chain]
    (the list of [Block]s the methods append to, or a peer's parsed chain
    after [resolve_conflicts] adopted it); [nodes], a set, is given by its
    members in iteration order.  [register_node], the only writer of
    [nodes], is left out: nothing below depends on how a peer came to be in
    the set. *)
Record Blockchain := mkBlockchain
  { chain : pyval;
    current_transactions : list Transaction;
    nodes : list string }.

Definition set_chain (c : pyval) (self : Blockchain) : Blockchain :=
  mkBlockchain c (current_transactions self) (nodes self).

Definition set_current_transactions (l : list Transaction) (self : Blockchain)
  : Blockchain :=
  mkBlockchain (chain self) l (nodes self).

Abbreviation M := (state Blockchain).

(** [Blockchain.hash]: SHA-256 of [block.json()]. *)
Definition hash_block (b : Block) : string :=
  SHA256.hexdigest (encode (block_json b)).

Definition hash (block : pyval) : result string :=
  match block with
  | PBlock b => Ok (hash_block b)
  | _ => Raise AttributeError
  end.

(** [Blockchain.last_block]: [self.chain[-1]]. *)
Definition last_block : M pyval :=
  fun self => (py_getitem (chain self) (-1), self).

(** How the [str] field [previous_hash] of [Block] takes the value it is
    given: a string as it is, a number as [str] of it. *)
Definition coerce_str (v : pyval) : result string :=
  match v with
  | PStr s => Ok s
  | PInt z => Ok (str_of_int z)
  | PBool b => Ok (if b then "True" else "False")
  | PFloat f => Ok (frepr f)
  | _ => Raise ValidationError
  end.

Definition or_else (v : option pyval) (alt : result pyval) : result pyval :=
  match v with
  | Some x => if py_truthy x then Ok x else alt
  | None => alt
  end.

(** [Blockchain.new_block]; [now] is what [time()] returns. *)
Definition new_block (now : pyfloat) (proof : Z) (previous_hash : option pyval)
  : M Block :=
  n <- (fun self => (py_len (chain self), self)) ;;
  ph <- (fun self =>
           (or_else previous_hash
              (let* tip := py_getitem (chain self) (-1) in
               let* h := hash tip in Ok (PStr h)), self)) ;;
  pool <- gets current_transactions ;;
  ph <- lift (coerce_str ph) ;;
  let block := mkBlock (n + 1) now pool proof ph in
  _ <- modify (set_current_transactions []) ;;
  c <- (fun self => (py_append (chain self) (PBlock block), self)) ;;
  _ <- modify (set_chain c) ;;
  ret block.

(** [Blockchain.__init__]: empty chain, pool and peer set, then the
    genesis block. *)
Definition init (now : pyfloat) : Blockchain :=
  snd (new_block now 100 (Some (PInt 1)) (mkBlockchain (PList []) [] [])).

(** [Blockchain.new_transaction]. *)
Definition new_transaction (transaction : Transaction) : M Z :=
  _ <- modify (fun self =>
         set_current_transactions (current_transactions self ++ [transaction]) self) ;;
  tip <- last_block ;;
  lift (index_plus_1 tip).

(** [Blockchain.valid_proof]. *)
Definition valid_proof (last_proof proof : Z) : bool :=
  let guess := encode (str_of_int last_proof +++ str_of_int proof) in
  let guess_hash := SHA256.hexdigest guess in
  String.eqb (substring 0 4 guess_hash) "0000".

(** [Blockchain.proof_of_work]: the loop, run for at most [fuel] tests. *)
Fixpoint proof_of_work_loop (fuel : nat) (last_proof proof : Z) : result Z :=
  match fuel with
  | O => OutOfFuel
  | S fuel' =>
      if negb (valid_proof last_proof proof)
      then proof_of_work_loop fuel' last_proof (proof + 1)
      else Ok proof
  end.

Definition proof_of_work (fuel : nat) (last_proof : Z) : result Z :=
  proof_of_work_loop fuel last_proof 0.

(** [Blockchain.valid_chain]: the loop from [index] on, [previous_block]
    being the element before it. *)
Fixpoint valid_chain_loop (fuel : nat) (chain previous_block : pyval) (index : Z)
  : result bool :=
  match fuel with
  | O => OutOfFuel
  | S fuel' =>
      let* n := py_len chain in
      if index <? n then
        let* block := py_getitem chain index in
        let* ph := getattr_previous_hash block in
        let* h := hash previous_block in
        if negb (String.eqb ph h) then Ok false else
        let* lp := getattr_proof previous_block in
        let* p := getattr_proof block in
        if negb (valid_proof lp p) then Ok false else
        valid_chain_loop fuel' chain block (index + 1)
      else Ok true
  end.

(** The loop is entered with [index = 1] and ends at [len(chain)], so
    [len(chain)] tests of its condition are enough. *)
Definition valid_chain (chain : pyval) : result bool :=
  let* previous_block := py_getitem chain 0 in
  let* n := py_len chain in
  valid_chain_loop (Z.to_nat n) chain previous_block 1.

(** What [requests.get(url)] does: it raises, or it returns a response with
    a status code and a body, [None] when the body is not JSON. *)
Inductive response :=
| Failed
| Response (status_code : Z) (body : option pyval).

Definition json (body : option pyval) : result pyval :=
  match body with
  | Some v => Ok v
  | None => Raise JSONDecodeError
  end.

(** [Blockchain.resolve_conflicts]: the [for] loop over the peers. *)
Fixpoint resolve_loop (get : string -> response) (neighbours : list string)
    (max_length : pyval) (new_chain : option pyval)
  : result (pyval * option pyval) :=
  match neighbours with
  | [] => Ok (max_length, new_chain)
  | node :: rest =>
      match get ("http://" +++ node +++ "/chain") with
      | Failed => Raise RequestException
      | Response status_code body =>
          if status_code =? 200 then
            let* chain := (let* j := json body in py_getkey j "chain") in
            let* len := (let* j := json body in py_getkey j "length") in
            let* longer := py_gt len max_length in
            let* ok := (if longer then valid_chain chain else Ok false) in
            if ok then resolve_loop get rest len (Some chain)
            else resolve_loop get rest max_length new_chain
          else resolve_loop get rest max_length new_chain
      end
  end.

Definition resolve_conflicts (get : string -> response) : M bool :=
  neighbours <- gets nodes ;;
  max_length <- (fun self => (py_len (chain self), self)) ;;
  scan <- lift (resolve_loop get neighbours (PInt max_length) None) ;;
  match snd scan with
  | Some new_chain =>
      if py_truthy new_chain then
        _ <- modify (set_chain new_chain) ;;
        ret true
      else ret false
  | None => ret false
  end.

(* ================================================================== *)
(** ** Request handlers                                                *)
(* ================================================================== *)

(** [GET /mine]; [node_id] is the module-level identifier of this node. *)
Definition mine (node_id : string) (now : pyfloat) (fuel : nat) : M Block :=
  tip <- last_block ;;
  last_proof <- lift (getattr_proof tip) ;;
  proof <- lift (proof_of_work fuel last_proof) ;;
  _ <- new_transaction (mkTransaction "0" node_id 1) ;;
  previous_hash <- lift (hash tip) ;;
  new_block now proof (Some (PStr previous_hash)).

(** [GET /chain], and the JSON a client reads back from it: FastAPI writes
    a [Block] as the object of its fields. *)
Definition get_full_chain : M pyval :=
  c <- gets chain ;;
  n <- lift (py_len c) ;;
  ret (PDict [("chain", c); ("length", PInt n)]).

Definition transaction_wire (t : Transaction) : pyval :=
  PDict [("sender", PStr (sender t)); ("recipient", PStr (recipient t));
         ("amount", PInt (amount t))].

Definition block_wire (b : Block) : pyval :=
  PDict [("index", PInt (index b)); ("timestamp", PFloat (timestamp b));
         ("transactions", PList (map transaction_wire (transactions b)));
         ("proof", PInt (proof b)); ("previous_hash", PStr (previous_hash b))].

Fixpoint wire (v : pyval) : pyval :=
  match v with
  | PList l => PList (map wire l)
  | PDict d => PDict (map (fun kv => (fst kv, wire (snd kv))) d)
  | PBlock b => block_wire b
  | _ => v
  end.

(* ================================================================== *)
(** ** Peer registration and the remaining handlers                    *)
(* ================================================================== *)

(** [set.add]: the element joins the set unless it is there already.
    Where a new member comes in the iteration order of a Python set is not
    specified; the model puts it last, and the properties stated of the
    peer set speak of membership and size only. *)
Definition set_add (x : string) (l : list string) : list string :=
  if existsb (String.eqb x) l then l else l ++ [x].

(** [Blockchain.register_node].  [netloc address] stands for
    [urlparse(address).netloc], a library function: the text between the
    scheme's [//] and the path, or an exception for an address it rejects. *)
Definition register_node (netloc : string -> result string) (address : string)
  : M unit :=
  parsed_url <- lift (netloc address) ;;
  modify (fun self =>
            mkBlockchain (chain self) (current_transactions self)
                         (set_add parsed_url (nodes self))).

Module app.

(** [POST /transactions]. *)
Definition new_transaction (transaction : Transaction) : M pyval :=
  index <- new_transaction transaction ;;
  ret (PDict [("message",
               PStr ("Transaction will be added to Block " +++ str_of_int index))]).

(** [POST /nodes/]: the [for] loop, then the message.  The body arrives as
    a set, given here by its members in iteration order. *)
Fixpoint register_each (netloc : string -> result string) (nodes : list string)
  : M unit :=
  match nodes with
  | [] => ret tt
  | node :: rest =>
      _ <- register_node netloc node ;;
      register_each netloc rest
  end.

Definition register_new_nodes (netloc : string -> result string)
    (nodes : list string) : M pyval :=
  _ <- register_each netloc nodes ;;
  ret (PDict [("message",
               PStr (str_of_int (Z.of_nat (List.length nodes))
                     +++ " nodes have been added"))]).

(** [GET /nodes/resolve]. *)
Definition consesus (get : string -> response) : M pyval :=
  replaced <- resolve_conflicts get ;;
  if replaced then ret (PDict [("message", PStr "Your chain was replaced")])
  else ret (PDict [("message", PStr "Your chain is authoritative")]).

End app.

(* ================================================================== *)
(** ** Vocabulary of the statements                                    *)
(* ================================================================== *)

(** The difficulty of the puzzle, as the specification words it: the
    digest starts with [k] characters ['0']. *)
Fixpoint zeros (k : nat) : string :=
  match k with
  | O => EmptyString
  | S k' => String "0" (zeros k')
  end.

Definition puzzle_digest (last_proof proof : Z) : string :=
  SHA256.hexdigest (encode (str_of_int last_proof +++ str_of_int proof)).

(** The check made on two adjacent blocks. *)
Definition pair_ok (prev curr : Block) : bool :=
  String.eqb (previous_hash curr) (hash_block prev) &&
  valid_proof (proof prev) (proof curr).

(** The walk of [valid_chain] over the elements that follow a block. *)
Fixpoint walk (prev : Block) (rest : list pyval) : result bool :=
  match rest with
  | [] => Ok true
  | PBlock curr :: rest' => if pair_ok prev curr then walk curr rest' else Ok false
  | _ :: _ => Raise AttributeError
  end.

(** A candidate made of [Block] objects. *)
Definition blocks_of (bs : list Block) : pyval := PList (map PBlock bs).

(** Every adjacent pair of the candidate passes the check. *)
Definition all_pairs_ok (bs : list Block) : Prop :=
  forall (i : nat) (prev curr : Block),
    nth_error bs i = Some prev -> nth_error bs (S i) = Some curr ->
    previous_hash curr = hash_block prev /\
    valid_proof (proof prev) (proof curr) = true.

(** The block [mine] forges on [tip] with proof [p]. *)
Definition mined (node_id : string) (now : pyfloat) (self : Blockchain)
    (pre : list Block) (tip : Block) (p : Z) : Block :=
  mkBlock (Z.of_nat (List.length (pre ++ [tip])) + 1) now
          (current_transactions self ++ [mkTransaction "0" node_id 1])
          p (hash_block tip).

(** One completed call of [mine()] or of [submit_transaction()] (the
    handler of [POST /transactions], which calls [new_transaction]); calls
    are applied one after the other. *)
Inductive step : Blockchain -> Blockchain -> Prop :=
| step_mine (node_id : string) (now : pyfloat) (fuel : nat)
            (self : Blockchain) (blk : Block) (self' : Blockchain) :
    mine node_id now fuel self = (Ok blk, self') -> step self self'
| step_submit (tx : Transaction) (self : Blockchain) (idx : Z)
              (self' : Blockchain) :
    new_transaction tx self = (Ok idx, self') -> step self self'.

(** The ledgers reached from a freshly constructed one. *)
Inductive reachable : Blockchain -> Prop :=
| reach_init (now : pyfloat) : reachable (init now)
| reach_step (self self' : Blockchain) :
    reachable self -> step self self' -> reachable self'.

(** What mining maintains: the chain is a non-empty list of blocks, each
    linked to the one before it by hash and by proof. *)
Definition linked (self : Blockchain) : Prop :=
  exists (pre : list Block) (tip : Block),
    chain self = blocks_of (pre ++ [tip]) /\ all_pairs_ok (pre ++ [tip]).

Definition chain_url (node : string) : string := "http://" +++ node +++ "/chain".

Definition set_nodes (l : list string) (self : Blockchain) : Blockchain :=
  mkBlockchain (chain self) (current_transactions self) l.

(** What a client reads from [GET /chain] of a node in state [peer]. *)
Definition served (peer : Blockchain) : option pyval :=
  match fst (get_full_chain peer) with
  | Ok v => Some (wire v)
  | _ => None
  end.

(** A peer's answer as the loop reads it. *)
Definition answers (get : string -> response) (node : string)
    (fetched len : pyval) : Prop :=
  exists body : pyval,
    get (chain_url node) = Response 200 (Some body) /\
    py_getkey body "chain" = Ok fetched /\
    py_getkey body "length" = Ok len.

(** The running maximum never falls below the local length [n]. *)
Definition above (n : Z) (m : pyval) : Prop :=
  m = PInt n \/ py_gt m (PInt n) = Ok true.

(** A value as [response.json()] produces it: no [Block] object in it. *)
Fixpoint is_json (v : pyval) : bool :=
  match v with
  | PBlock _ => false
  | PList l => forallb is_json l
  | PDict d => forallb (fun kv => is_json (snd kv)) d
  | _ => true
  end.

(** A world in which every body that parses is such a value. *)
Definition json_world (get : string -> response) : Prop :=
  forall (url : string) (code : Z) (body : pyval),
    get url = Response code (Some body) -> is_json body = true.

(** The blocks held in a chain variable. *)
Definition blocks_in (c : pyval) : list Block :=
  match c with
  | PList l => flat_map (fun x => match x with PBlock b => [b] | _ => [] end) l
  | _ => []
  end.

(** Every transaction the ledger holds: those sealed in blocks, in chain
    order, then the pending ones. *)
Definition ledger_transactions (self : Blockchain) : list Transaction :=
  flat_map transactions (blocks_in (chain self)) ++ current_transactions self.

(** The reward [mine] pays to [node_id], and the genesis block created
    at time [now]. *)
Definition reward (node_id : string) : Transaction := mkTransaction "0" node_id 1.

Definition genesis_at (now : pyfloat) : Block := mkBlock 1 now [] 100 "1".

(** Any number of completed calls, one after the other. *)
Inductive steps : Blockchain -> Blockchain -> Prop :=
| steps_refl (self : Blockchain) : steps self self
| steps_cons (self self' self'' : Blockchain) :
    step self self' -> steps self' self'' -> steps self self''.

(** Any number of completed [submit_transaction()] calls. *)
Inductive submits : Blockchain -> Blockchain -> Prop :=
| submits_refl (self : Blockchain) : submits self self
| submits_cons (tx : Transaction) (idx : Z) (self self' self'' : Blockchain) :
    new_transaction tx self = (Ok idx, self') -> submits self' self'' ->
    submits self self''.

(** A peer that runs this program and holds the chain [bs] answers
    [GET /chain] with this response. *)
Definition honest_answer (bs : list Block) : response :=
  Response 200 (served (mkBlockchain (blocks_of bs) [] [])).

(** [p] is the first non-negative proof valid after [last_proof]. *)
Definition first_proof (last_proof p : Z) : Prop :=
  0 <= p /\ valid_proof last_proof p = true /\
  forall q, 0 <= q < p -> valid_proof last_proof q = false.

(** The proofs along a chain: 100 in the first block, then each the
    first proof valid after the one before. *)
Definition proof_chain (bs : list Block) : Prop :=
  (forall b, nth_error bs 0 = Some b -> proof b = 100) /\
  forall (i : nat) (prev curr : Block),
    nth_error bs i = Some prev -> nth_error bs (S i) = Some curr ->
    first_proof (proof prev) (proof curr).

(** The block in position [i] has index [i + 1]. *)
Definition indexed (bs : list Block) : Prop :=
  forall (i : nat) (b : Block), nth_error bs i = Some b -> index b = Z.of_nat i + 1.

(* ================================================================== *)
(** ** Sample data                                                     *)
(* ================================================================== *)

Definition sample_node_id : string := "5f2c1b0e7a9d4c3e8b6a1d2f3e4c5b6a".

Definition t0 : pyfloat := Float (Finite (3273324001 # 2)) "1636662000.5".
Definition t1 : pyfloat := Float (Finite (6546648061 # 4)) "1636662015.25".

(** The genesis block, and a block mined on it. *)
Definition genesis : Block := mkBlock 1 t0 [] 100 "1".

Definition block2 : Block :=
  mkBlock 2 t1 [mkTransaction "0" sample_node_id 1] 35293 (hash_block genesis).

(** A world in which the peer ["10.0.0.2:5000"] answers 503 and every other
    request raises. *)
Definition get_unavailable (url : string) : response :=
  if String.eqb url (chain_url "10.0.0.2:5000") then Response 503 None else Failed.

(** A world with one peer that answers 200 with the given JSON body. *)
Definition get_body (node : string) (body : pyval) (url : string) : response :=
  if String.eqb url (chain_url node) then Response 200 (Some body) else Failed.

(** A stand-in for [urlparse(address).netloc] on addresses of the shape
    [http://host:port/path]: what follows the first seven characters, up to
    the next slash. *)
Fixpoint until_slash (s : string) : string :=
  match s with
  | EmptyString => EmptyString
  | String c s' => if Ascii.eqb c "/" then EmptyString else String c (until_slash s')
  end.

Definition sample_netloc (address : string) : result string :=
  Ok (until_slash (substring 7 (String.length address - 7) address)).

(** A world in which every peer serves the one-block chain [genesis]
    and reports the length [reported]. *)
Definition get_short (reported : Z) (url : string) : response :=
  Response 200 (Some (PDict [("chain", PList [block_wire genesis]);
                             ("length", PInt reported)])).

(** A world in which every peer holds the chain [bs]. *)
Definition get_honest (bs : list Block) (url : string) : response :=
  honest_answer bs.

(** The sample ledger: a fresh one with one transaction submitted. *)
Definition sample_tx : Transaction := mkTransaction "alice" "bob" 5.

Definition sample_ledger : Blockchain :=
  mkBlockchain (blocks_of [genesis]) [sample_tx] [].

(* ================================================================== *)
(** ** The proof-of-work predicate                                     *)
(* ================================================================== *)

(** Known answers of SHA-256: the empty message, ["abc"], and a message
    that takes two blocks. *)
Example sha256_empty :
  SHA256.hexdigest (encode "")
  = "e3b0c44298fc1c149afbf4c8996fb92427ae41e4649b934ca495991b7852b855".
Proof. vm_compute; reflexivity. Qed.

Example sha256_abc :
  SHA256.hexdigest (encode "abc")
  = "ba7816bf8f01cfea414140de5dae2223b00361a396177a9cb410ff61f20015ad".
Proof. vm_compute; reflexivity. Qed.

Example sha256_two_blocks :
  SHA256.hexdigest
    (encode "abcdbcdecdefdefgefghfghighijhijkijkljklmklmnlmnomnopnopq")
  = "248d6a61d20638b8e5c026930c3e6039a33ce45964ff2167f6ecedd419db06c1".
Proof. vm_compute; reflexivity. Qed.

Lemma substring_0_0 (s : string) : substring 0 0 s = EmptyString.
Proof. destruct s; reflexivity. Qed.

Lemma slice4_prefix (s : string) :
  String.eqb (substring 0 4 s) "0000" = true <-> prefix (zeros 4) s = true.
Proof.
  rewrite String.eqb_eq.
  symmetry; apply (prefix_correct (zeros 4) s).
Qed.

Lemma slice4_split (s : string) :
  substring 0 4 s = "0000" <-> exists rest, s = zeros 4 +++ rest.
Proof.
  split.
  - do 4 (destruct s as [|? s]; [discriminate|]).
    cbn [substring]; rewrite substring_0_0.
    intros H; injection H as -> -> -> ->.
    exists s; reflexivity.
  - intros [rest ->]; cbn [zeros append substring].
    now rewrite substring_0_0.
Qed.

(** C4. [valid_proof(last_proof, proof)] is true exactly when the
    hexadecimal SHA-256 digest of the decimal text of [last_proof] followed
    by the decimal text of [proof] starts with four characters ['0']. *)
Theorem valid_proof_four_zeros (last_proof proof : Z) :
  (valid_proof last_proof proof = true <->
   prefix (zeros 4) (puzzle_digest last_proof proof) = true) /\
  (valid_proof last_proof proof = true <->
   exists rest, puzzle_digest last_proof proof = zeros 4 +++ rest).
Proof.
  unfold valid_proof, puzzle_digest; split.
  - apply slice4_prefix.
  - rewrite String.eqb_eq; apply slice4_split.
Qed.

(** C9. [valid_proof] sees its arguments only through the concatenation of
    their decimal texts: two pairs of non-negative integers with the same
    concatenation get the same answer. *)
Theorem valid_proof_concat (a b c d : Z) :
  0 <= a -> 0 <= b -> 0 <= c -> 0 <= d ->
  str_of_int a +++ str_of_int b = str_of_int c +++ str_of_int d ->
  valid_proof a b = valid_proof c d.
Proof.
  intros _ _ _ _ H; unfold valid_proof; now rewrite H.
Qed.

Lemma valid_proof_concat_witness :
  str_of_int 1 +++ str_of_int 23 = str_of_int 12 +++ str_of_int 3 /\
  valid_proof 1 23 = valid_proof 12 3.
Proof.
  split; [reflexivity|].
  apply valid_proof_concat; [lia | lia | lia | lia | reflexivity].
Defined.

(* ================================================================== *)
(** ** The proof-of-work search                                        *)
(* ================================================================== *)

(** With fuel left after the first valid candidate, the loop stops on it. *)
Lemma proof_of_work_loop_finds (last_proof : Z) :
  forall (n fuel : nat) (start : Z),
    (forall q, start <= q < start + Z.of_nat n -> valid_proof last_proof q = false) ->
    valid_proof last_proof (start + Z.of_nat n) = true ->
    (n < fuel)%nat ->
    proof_of_work_loop fuel last_proof start = Ok (start + Z.of_nat n).
Proof.
  induction n as [|n IH]; intros fuel start Hlow Hhit Hfuel.
  - destruct fuel as [|fuel]; [lia|].
    replace (start + Z.of_nat 0) with start in * by lia.
    cbn [proof_of_work_loop]; now rewrite Hhit.
  - destruct fuel as [|fuel]; [lia|].
    cbn [proof_of_work_loop].
    rewrite (Hlow start) by lia; cbn [negb].
    replace (start + Z.of_nat (S n)) with (start + 1 + Z.of_nat n) in * by lia.
    apply IH; [|assumption|lia].
    intros q Hq; apply Hlow; lia.
Qed.

(** Too little fuel is reported as such, never as a wrong answer. *)
Lemma proof_of_work_loop_starves (last_proof : Z) :
  forall (fuel : nat) (start : Z),
    (forall q, start <= q < start + Z.of_nat fuel -> valid_proof last_proof q = false) ->
    proof_of_work_loop fuel last_proof start = OutOfFuel.
Proof.
  induction fuel as [|fuel IH]; intros start Hlow; [reflexivity|].
  cbn [proof_of_work_loop].
  rewrite (Hlow start) by lia; cbn [negb].
  apply IH; intros q Hq; apply Hlow; lia.
Qed.

(** The search never raises. *)
Lemma proof_of_work_loop_no_raise (last_proof : Z) :
  forall (fuel : nat) (start : Z) (e : exn),
    proof_of_work_loop fuel last_proof start <> Raise e.
Proof.
  induction fuel as [|fuel IH]; intros start e; cbn [proof_of_work_loop];
    [discriminate|].
  destruct (valid_proof last_proof start); cbn [negb]; [discriminate | apply IH].
Qed.

(** What the search returns is a valid proof, and the first one. *)
Lemma proof_of_work_loop_sound (last_proof : Z) :
  forall (fuel : nat) (start p : Z),
    proof_of_work_loop fuel last_proof start = Ok p ->
    start <= p /\ valid_proof last_proof p = true /\
    forall q, start <= q < p -> valid_proof last_proof q = false.
Proof.
  induction fuel as [|fuel IH]; intros start p; cbn [proof_of_work_loop];
    [discriminate|].
  destruct (valid_proof last_proof start) eqn:Hs; cbn [negb].
  - intros [= <-]; repeat split; [lia | assumption | intros; lia].
  - intros H; destruct (IH _ _ H) as (Hle & Hv & Hlow).
    repeat split; [lia | assumption |].
    intros q Hq; destruct (Z.eq_dec q start) as [->|]; [assumption | apply Hlow; lia].
Qed.

(** Among the candidates from [start] up to a valid one there is a first
    valid one. *)
Lemma first_valid_proof (last_proof : Z) :
  forall (n : nat) (start : Z),
    valid_proof last_proof (start + Z.of_nat n) = true ->
    exists m : nat, (m <= n)%nat /\
      valid_proof last_proof (start + Z.of_nat m) = true /\
      forall q, start <= q < start + Z.of_nat m -> valid_proof last_proof q = false.
Proof.
  induction n as [|n IH]; intros start Hhit.
  - exists O; repeat split; [lia | assumption | intros; lia].
  - destruct (valid_proof last_proof start) eqn:Hs.
    + exists O; replace (start + Z.of_nat 0) with start by lia.
      repeat split; [lia | assumption | intros; lia].
    + replace (start + Z.of_nat (S n)) with (start + 1 + Z.of_nat n) in Hhit by lia.
      destruct (IH _ Hhit) as (m & Hm & Hv & Hlow).
      exists (S m).
      replace (start + Z.of_nat (S m)) with (start + 1 + Z.of_nat m) by lia.
      repeat split; [lia | assumption |].
      intros q Hq; destruct (Z.eq_dec q start) as [->|]; [assumption | apply Hlow; lia].
Qed.

Lemma proof_of_work_terminates (last_proof : Z) :
  (exists p, 0 <= p /\ valid_proof last_proof p = true) ->
  exists (p : Z) (fuel0 : nat),
    0 <= p /\
    (forall fuel, (fuel0 <= fuel)%nat -> proof_of_work fuel last_proof = Ok p) /\
    valid_proof last_proof p = true /\
    (forall q, 0 <= q < p -> valid_proof last_proof q = false).
Proof.
  intros (p & Hp & Hv).
  destruct (first_valid_proof last_proof (Z.to_nat p) 0) as (m & Hm & Hvm & Hlow).
  { now rewrite Z.add_0_l, Z2Nat.id. }
  exists (Z.of_nat m), (S m); repeat split; [lia | | assumption | assumption].
  intros fuel Hfuel.
  apply (proof_of_work_loop_finds last_proof m fuel 0); [assumption | assumption | lia].
Qed.

(** C5. For a non-negative [last_proof] that has a valid non-negative
    proof at all, [proof_of_work(last_proof)] terminates (any fuel from some
    bound on gives the same result) and returns the least non-negative
    valid proof. *)
Theorem proof_of_work_least (last_proof : Z) :
  0 <= last_proof ->
  (exists p, 0 <= p /\ valid_proof last_proof p = true) ->
  exists (p : Z) (fuel0 : nat),
    0 <= p /\
    (forall fuel, (fuel0 <= fuel)%nat -> proof_of_work fuel last_proof = Ok p) /\
    valid_proof last_proof p = true /\
    (forall q, 0 <= q < p -> valid_proof last_proof q = false).
Proof.
  intros _; apply proof_of_work_terminates.
Qed.

(** The proof found for the genesis block in the original run of the
    program is indeed valid: the digest of ["10035293"] starts with
    ["0000"]. *)
Lemma valid_proof_100_35293 : valid_proof 100 35293 = true.
Proof. vm_compute; reflexivity. Qed.

Lemma proof_of_work_least_witness :
  exists (p : Z) (fuel0 : nat),
    0 <= p /\
    (forall fuel, (fuel0 <= fuel)%nat -> proof_of_work fuel 100 = Ok p) /\
    valid_proof 100 p = true /\
    (forall q, 0 <= q < p -> valid_proof 100 q = false).
Proof.
  apply (proof_of_work_least 100); [lia|].
  exists 35293; split; [lia | vm_compute; reflexivity].
Defined.

(* ================================================================== *)
(** ** The chain validator                                             *)
(* ================================================================== *)

Lemma seq_item_nth (l : list pyval) (i : nat) (x : pyval) :
  nth_error l i = Some x -> seq_item l (Z.of_nat i) = Ok x.
Proof.
  intros H; unfold seq_item.
  assert (i < List.length l)%nat by (apply nth_error_Some; congruence).
  replace (Z.of_nat i <? 0) with false by (symmetry; apply Z.ltb_ge; lia).
  replace (0 <=? Z.of_nat i) with true by (symmetry; apply Z.leb_le; lia).
  replace (Z.of_nat i <? Z.of_nat (List.length l)) with true
    by (symmetry; apply Z.ltb_lt; lia).
  cbn [andb]; now rewrite Nat2Z.id, H.
Qed.

Lemma seq_item_last (pre : list pyval) (x : pyval) :
  seq_item (pre ++ [x]) (-1) = Ok x.
Proof.
  unfold seq_item; rewrite length_app; cbn [List.length Z.ltb Z.compare].
  replace (-1 + Z.of_nat (List.length pre + 1)) with (Z.of_nat (List.length pre)) by lia.
  replace (0 <=? Z.of_nat (List.length pre)) with true by (symmetry; apply Z.leb_le; lia).
  replace (Z.of_nat (List.length pre) <? Z.of_nat (List.length pre + 1)) with true
    by (symmetry; apply Z.ltb_lt; lia).
  cbn [andb]; rewrite Nat2Z.id, nth_error_app2, Nat.sub_diag by lia.
  reflexivity.
Qed.

Lemma seq_item_empty (i : Z) : seq_item [] i = Raise IndexError.
Proof.
  unfold seq_item; cbn [List.length Z.of_nat].
  destruct (i <? 0) eqn:Hi; rewrite ?Z.add_0_r.
  - replace (0 <=? i) with false by (symmetry; apply Z.leb_gt; apply Z.ltb_lt; assumption).
    reflexivity.
  - destruct (0 <=? i); cbn [andb]; [|reflexivity].
    replace (i <? 0) with false; reflexivity.
Qed.

(** The loop of [valid_chain] on a list, entered at the index where [rest]
    starts, is the walk over [rest]. *)
Lemma valid_chain_loop_walk :
  forall (rest pre : list pyval) (prev : Block) (fuel : nat),
    (List.length rest < fuel)%nat ->
    valid_chain_loop fuel (PList (pre ++ rest)) (PBlock prev)
                     (Z.of_nat (List.length pre))
    = walk prev rest.
Proof.
  induction rest as [|x rest IH]; intros pre prev fuel Hfuel;
    (destruct fuel as [|fuel]; [cbn [List.length] in Hfuel; lia|]);
    cbn [valid_chain_loop py_len rbind].
  - rewrite app_nil_r, Z.ltb_irrefl; reflexivity.
  - replace (Z.of_nat (List.length pre) <? Z.of_nat (List.length (pre ++ x :: rest)))
      with true
      by (symmetry; apply Z.ltb_lt; rewrite length_app; cbn [List.length]; lia).
    cbn [py_getitem].
    rewrite (seq_item_nth _ _ x)
      by (rewrite nth_error_app2, Nat.sub_diag by lia; reflexivity).
    cbn [rbind].
    destruct x; cbn [getattr_previous_hash rbind walk]; try reflexivity.
    cbn [hash getattr_proof rbind].
    unfold pair_ok.
    destruct (String.eqb (previous_hash b) (hash_block prev)); cbn [negb andb];
      [|reflexivity].
    destruct (valid_proof (proof prev) (proof b)); cbn [negb]; [|reflexivity].
    replace (pre ++ PBlock b :: rest) with ((pre ++ [PBlock b]) ++ rest)
      by (rewrite <- app_assoc; reflexivity).
    replace (Z.of_nat (List.length pre) + 1)
      with (Z.of_nat (List.length (pre ++ [PBlock b])))
      by (rewrite length_app; cbn [List.length]; lia).
    apply IH; cbn [List.length] in Hfuel; lia.
Qed.

(** [valid_chain] on a list that starts with a block. *)
Lemma valid_chain_walk (b : Block) (rest : list pyval) :
  valid_chain (PList (PBlock b :: rest)) = walk b rest.
Proof.
  unfold valid_chain; cbn [py_getitem].
  rewrite (seq_item_nth _ 0 (PBlock b)) by reflexivity.
  cbn [rbind py_len].
  rewrite Nat2Z.id.
  apply (valid_chain_loop_walk rest [PBlock b] b).
  cbn [List.length]; lia.
Qed.

Lemma all_pairs_ok_cons (prev curr : Block) (bs : list Block) :
  all_pairs_ok (prev :: curr :: bs) <->
  pair_ok prev curr = true /\ all_pairs_ok (curr :: bs).
Proof.
  unfold all_pairs_ok, pair_ok; split.
  - intros H; split.
    + destruct (H O prev curr eq_refl eq_refl) as [-> ->].
      now rewrite String.eqb_refl.
    + intros i p c Hp Hc; apply (H (S i)); assumption.
  - intros [H0 H] i p c Hp Hc.
    destruct i as [|i].
    + cbn in Hp, Hc; injection Hp as <-; injection Hc as <-.
      apply andb_true_iff in H0 as [H1 H2].
      apply String.eqb_eq in H1; now split.
    + apply (H i); assumption.
Qed.

Lemma all_pairs_ok_single (b : Block) : all_pairs_ok [b].
Proof.
  intros [|[|i]] p c Hp Hc; cbn in Hc; discriminate.
Qed.

(** On blocks the walk answers, and its answer is whether all pairs pass. *)
Lemma walk_blocks :
  forall (bs : list Block) (b : Block),
    exists v : bool,
      walk b (map PBlock bs) = Ok v /\ (v = true <-> all_pairs_ok (b :: bs)).
Proof.
  induction bs as [|c bs IH]; intros b; cbn [map walk].
  - exists true; split; [reflexivity|].
    split; [intros _; apply all_pairs_ok_single | reflexivity].
  - destruct (pair_ok b c) eqn:Hbc.
    + destruct (IH c) as (v & Hv & Hiff); exists v; split; [assumption|].
      rewrite all_pairs_ok_cons, Hiff; tauto.
    + exists false; split; [reflexivity|].
      rewrite all_pairs_ok_cons, Hbc; split; [discriminate | intros [? _]; discriminate].
Qed.

Lemma last_cons (c : Block) (bs : list Block) (b : Block) :
  last (c :: bs) b = last bs c.
Proof.
  revert c b; induction bs as [|d bs IH]; intros c b; [reflexivity|].
  change (last (c :: d :: bs) b) with (last (d :: bs) b).
  now rewrite (IH d b), (IH d c).
Qed.

(** The walk stops at the first pair that fails: nothing after it is
    looked at. *)
Lemma walk_first_failure :
  forall (bs : list Block) (b curr : Block) (junk : list pyval),
    all_pairs_ok (b :: bs) ->
    pair_ok (last bs b) curr = false ->
    walk b (map PBlock bs ++ PBlock curr :: junk) = Ok false.
Proof.
  induction bs as [|c bs IH]; intros b curr junk Hok Hfail.
  - cbn [last] in Hfail; cbn [map app walk]; now rewrite Hfail.
  - apply all_pairs_ok_cons in Hok as [Hbc Hok].
    cbn [map app walk]; rewrite Hbc.
    apply IH; [assumption|].
    now rewrite last_cons in Hfail.
Qed.

(** *** The validator is total *)

Lemma chars_length (s : string) :
  List.length (chars s) = String.length s.
Proof. induction s as [|c s IH]; cbn [chars List.length String.length]; congruence. Qed.

Lemma seq_item_in_range (l : list pyval) (i : Z) (x : pyval) :
  seq_item l i = Ok x -> 0 < Z.of_nat (List.length l).
Proof.
  destruct l; [rewrite seq_item_empty; discriminate | cbn [List.length]; lia].
Qed.

(** With fuel for the tests that remain, the loop ends: it returns or it
    raises. *)
Lemma valid_chain_loop_ends :
  forall (fuel : nat) (chain previous_block : pyval) (index n : Z),
    py_len chain = Ok n ->
    (0 < fuel)%nat -> n - index < Z.of_nat fuel ->
    valid_chain_loop fuel chain previous_block index <> OutOfFuel.
Proof.
  induction fuel as [|fuel IH]; intros chain prev index n Hn Hpos Hfuel; [lia|].
  cbn [valid_chain_loop]; rewrite Hn; cbn [rbind].
  destruct (index <? n) eqn:Hlt; [|discriminate].
  apply Z.ltb_lt in Hlt.
  destruct (py_getitem chain index) as [block| |] eqn:Hitem; cbn [rbind];
    [|discriminate|].
  - destruct block; cbn [getattr_previous_hash rbind]; try discriminate.
    destruct prev; cbn [hash rbind getattr_proof]; try discriminate.
    destruct (negb _); [discriminate|].
    destruct (negb _); [discriminate|].
    apply (IH _ _ _ n Hn); lia.
  - destruct chain; cbn [py_getitem] in Hitem; try discriminate;
      unfold seq_item in Hitem;
      repeat match type of Hitem with
             | context [if ?c then _ else _] => destruct c
             | context [match ?c with Some _ => _ | None => _ end] => destruct c
             end; discriminate.
Qed.

Lemma valid_chain_total (chain : pyval) : valid_chain chain <> OutOfFuel.
Proof.
  unfold valid_chain.
  destruct (py_getitem chain 0) as [prev| |] eqn:Hitem; cbn [rbind];
    [|discriminate|].
  - destruct chain; cbn [py_getitem] in Hitem; try discriminate;
      apply seq_item_in_range in Hitem; rewrite ?chars_length in Hitem;
      cbn [py_len rbind]; rewrite Nat2Z.id;
      (eapply valid_chain_loop_ends; [reflexivity | lia | lia]).
  - destruct chain; cbn [py_getitem] in Hitem; try discriminate;
      unfold seq_item in Hitem;
      repeat match type of Hitem with
             | context [if ?c then _ else _] => destruct c
             | context [match ?c with Some _ => _ | None => _ end] => destruct c
             end; discriminate.
Qed.

(** The candidate with no block at all is not accepted: [chain[0]] raises. *)
Lemma valid_chain_empty_raises :
  valid_chain (blocks_of []) = Raise IndexError /\
  valid_chain (blocks_of []) <> Ok true.
Proof.
  assert (H : valid_chain (blocks_of []) = Raise IndexError) by reflexivity.
  split; [exact H | rewrite H; discriminate].
Qed.

Lemma snoc_cons_last (pre : list Block) (prev : Block) :
  exists (b : Block) (bs : list Block),
    pre ++ [prev] = b :: bs /\ last bs b = prev.
Proof.
  destruct pre as [|b pre].
  - exists prev, []; split; reflexivity.
  - exists b, (pre ++ [prev]); split; [reflexivity | apply last_last].
Qed.

(** C3 (amended to candidates with at least one block). For a non-empty
    candidate, [valid_chain] returns a boolean: true when there is a single
    block, and in general true exactly when every adjacent pair [prev],
    [curr] has [curr.previous_hash == hash(prev)] and
    [valid_proof(prev.proof, curr.proof)]; it returns false at the first
    failing pair, whatever follows that pair. *)
Theorem valid_chain_blocks (bs : list Block) :
  bs <> [] ->
  ((List.length bs < 2)%nat -> valid_chain (blocks_of bs) = Ok true) /\
  (exists v : bool,
      valid_chain (blocks_of bs) = Ok v /\ (v = true <-> all_pairs_ok bs)) /\
  (forall (pre : list Block) (prev curr : Block) (post : list Block),
      bs = pre ++ prev :: curr :: post ->
      all_pairs_ok (pre ++ [prev]) ->
      pair_ok prev curr = false ->
      valid_chain (blocks_of bs) = Ok false /\
      forall junk : list pyval,
        valid_chain (PList (map PBlock (pre ++ [prev; curr]) ++ junk)) = Ok false).
Proof.
  intros Hne; destruct bs as [|b bs]; [congruence|]; clear Hne.
  unfold blocks_of; cbn [map]; rewrite valid_chain_walk.
  split; [|split].
  - destruct bs as [|c bs]; [reflexivity | cbn [List.length]; lia].
  - apply walk_blocks.
  - intros pre prev curr post Hbs Hok Hfail.
    destruct (snoc_cons_last pre prev) as (b' & bs' & Hsplit & Hlast).
    assert (Hshape : forall tl : list Block,
               pre ++ prev :: tl = b' :: bs' ++ tl).
    { intros tl. change (prev :: tl) with ([prev] ++ tl).
      now rewrite app_assoc, Hsplit. }
    rewrite Hsplit in Hok; rewrite <- Hlast in Hfail.
    split.
    + rewrite Hshape in Hbs; injection Hbs as -> ->.
      rewrite map_app; cbn [map].
      now apply walk_first_failure.
    + intros junk.
      change [prev; curr] with (prev :: [curr]); rewrite Hshape.
      cbn [map app]; rewrite valid_chain_walk, map_app, <- app_assoc.
      cbn [map app]; now apply walk_first_failure.
Qed.

Lemma valid_chain_blocks_witness :
  exists v : bool,
    valid_chain (blocks_of [genesis; block2]) = Ok v /\
    (v = true <-> all_pairs_ok [genesis; block2]).
Proof.
  exact (proj1 (proj2 (valid_chain_blocks [genesis; block2] ltac:(discriminate)))).
Defined.

Example init_genesis : init t0 = mkBlockchain (blocks_of [genesis]) [] [].
Proof. reflexivity. Qed.

Example valid_chain_sample : valid_chain (blocks_of [genesis; block2]) = Ok true.
Proof. vm_compute; reflexivity. Qed.

(* ================================================================== *)
(** ** Mining and submitting                                           *)
(* ================================================================== *)

Lemma hexdigest_nonempty (msg : list Z) :
  exists (c : ascii) (s : string), SHA256.hexdigest msg = String c s.
Proof.
  unfold SHA256.hexdigest; cbv zeta.
  unfold SHA256.hex_word at 1; eauto.
Qed.

Lemma hash_block_truthy (b : Block) : py_truthy (PStr (hash_block b)) = true.
Proof.
  unfold hash_block.
  destruct (hexdigest_nonempty (encode (block_json b))) as (c & s & ->).
  reflexivity.
Qed.

Lemma last_block_blocks (self : Blockchain) (pre : list Block) (tip : Block) :
  chain self = blocks_of (pre ++ [tip]) ->
  last_block self = (Ok (PBlock tip), self).
Proof.
  intros H; unfold last_block; rewrite H; unfold blocks_of.
  rewrite map_app; cbn [map py_getitem].
  now rewrite seq_item_last.
Qed.

(** On a chain of blocks [new_transaction] appends to the pool and answers
    with the index after the tip's. *)
Lemma new_transaction_blocks (tx : Transaction) (self : Blockchain)
    (pre : list Block) (tip : Block) :
  chain self = blocks_of (pre ++ [tip]) ->
  new_transaction tx self =
  (Ok (index tip + 1),
   set_current_transactions (current_transactions self ++ [tx]) self).
Proof.
  intros H; unfold new_transaction, bind, modify.
  rewrite (last_block_blocks _ pre tip) by exact H.
  reflexivity.
Qed.

(** [mine] on a chain of blocks follows the proof-of-work search: its
    result when the search ends, nothing done when the fuel runs out. *)
Lemma mine_blocks (node_id : string) (now : pyfloat) (fuel : nat)
    (self : Blockchain) (pre : list Block) (tip : Block) :
  chain self = blocks_of (pre ++ [tip]) ->
  mine node_id now fuel self =
  match proof_of_work fuel (proof tip) with
  | Ok p =>
      let blk := mined node_id now self pre tip p in
      (Ok blk, mkBlockchain (blocks_of ((pre ++ [tip]) ++ [blk])) [] (nodes self))
  | Raise e => (Raise e, self)
  | OutOfFuel => (OutOfFuel, self)
  end.
Proof.
  intros H; unfold mine, bind at 1.
  rewrite (last_block_blocks _ pre tip) by exact H.
  unfold bind at 1, lift at 1; cbn [getattr_proof].
  unfold bind at 1, lift at 1.
  destruct (proof_of_work fuel (proof tip)) as [p| |]; try reflexivity.
  unfold bind at 1.
  rewrite (new_transaction_blocks _ _ pre tip) by exact H.
  unfold bind at 1, lift at 1; cbn [hash].
  unfold new_block, bind, gets, modify, lift, ret, or_else.
  cbn [chain set_current_transactions set_chain current_transactions nodes].
  rewrite H, hash_block_truthy.
  unfold blocks_of; cbn [py_len py_append coerce_str].
  rewrite length_map, (map_app PBlock (pre ++ [tip])).
  reflexivity.
Qed.

(** C6 (amended to the ledgers [mine()] is written for). On a ledger
    whose chain is a non-empty list of [Block] objects and whose tip has a
    valid proof to find, [mine()] returns, and it appends exactly
    one block: its transactions are the pending pool followed by one reward
    transaction (sender ["0"], recipient this node's id, amount 1), its
    proof is valid against the old tip's proof, its [previous_hash] is the
    hash of the old tip; afterwards the pending pool is empty.  It is not
    so on every ledger: after a replacement by [resolve_conflicts] the
    chain holds no [Block] and [mine()] raises. *)
Theorem mine_appends_block (node_id : string) (now : pyfloat)
    (self : Blockchain) (pre : list Block) (tip : Block) :
  chain self = blocks_of (pre ++ [tip]) ->
  (exists p, 0 <= p /\ valid_proof (proof tip) p = true) ->
  exists (blk : Block) (self' : Blockchain) (fuel0 : nat),
    (forall fuel, (fuel0 <= fuel)%nat ->
                  mine node_id now fuel self = (Ok blk, self')) /\
    chain self' = blocks_of ((pre ++ [tip]) ++ [blk]) /\
    current_transactions self' = [] /\
    nodes self' = nodes self /\
    transactions blk =
      current_transactions self ++ [mkTransaction "0" node_id 1] /\
    valid_proof (proof tip) (proof blk) = true /\
    previous_hash blk = hash_block tip.
Proof.
  intros Hchain Hex.
  destruct (proof_of_work_terminates (proof tip) Hex) as (p & fuel0 & _ & Hrun & Hv & _).
  exists (mined node_id now self pre tip p).
  exists (mkBlockchain
            (blocks_of ((pre ++ [tip]) ++ [mined node_id now self pre tip p]))
            [] (nodes self)).
  exists fuel0.
  split; [|repeat split; assumption].
  intros fuel Hfuel.
  rewrite (mine_blocks node_id now fuel self pre tip Hchain), (Hrun fuel Hfuel).
  reflexivity.
Qed.

Lemma mine_appends_block_witness :
  let tx := mkTransaction "alice" "bob" 5 in
  let self := mkBlockchain (blocks_of [genesis]) [tx] [] in
  exists (blk : Block) (self' : Blockchain) (fuel0 : nat),
    (forall fuel, (fuel0 <= fuel)%nat ->
                  mine sample_node_id t1 fuel self = (Ok blk, self')) /\
    chain self' = blocks_of ([genesis] ++ [blk]) /\
    current_transactions self' = [] /\
    nodes self' = nodes self /\
    transactions blk = [tx; mkTransaction "0" sample_node_id 1] /\
    valid_proof 100 (proof blk) = true /\
    previous_hash blk = hash_block genesis.
Proof.
  intros tx self.
  apply (mine_appends_block sample_node_id t1 self [] genesis); [reflexivity|].
  exists 35293; split; [lia | vm_compute; reflexivity].
Defined.

(** Not every ledger is one [mine()] can work on.  Here the local chain
    has two blocks and the peer serves a one-element chain with a reported
    length of 5: [resolve_conflicts] installs the served list, whose element
    is a parsed JSON object, and on the ledger it leaves [mine()] raises
    [AttributeError] whatever the fuel: no block is returned, none is
    appended, and the pool is not emptied. *)
Lemma mine_after_replacement_raises :
  let self := mkBlockchain (blocks_of [genesis; block2]) [sample_tx]
                           ["10.0.0.2:5000"] in
  let self' := set_chain (PList [block_wire genesis]) self in
  resolve_conflicts (get_short 5) self = (Ok true, self') /\
  (forall fuel : nat,
      mine sample_node_id t1 fuel self' = (Raise AttributeError, self')) /\
  ~ (exists (fuel : nat) (blk : Block) (after : Blockchain),
        mine sample_node_id t1 fuel self' = (Ok blk, after)) /\
  current_transactions self' = [sample_tx].
Proof.
  intros self self'.
  assert (Hmine : forall fuel : nat,
             mine sample_node_id t1 fuel self' = (Raise AttributeError, self'))
    by (intros fuel; reflexivity).
  split; [vm_compute; reflexivity | split; [exact Hmine | split; [|reflexivity]]].
  intros (fuel & blk & after & Hrun).
  rewrite Hmine in Hrun; discriminate.
Qed.

(* ================================================================== *)
(** ** Chains built by mining                                          *)
(* ================================================================== *)

Lemma all_pairs_ok_snoc (bs : list Block) (tip blk : Block) :
  all_pairs_ok (bs ++ [tip]) ->
  previous_hash blk = hash_block tip ->
  valid_proof (proof tip) (proof blk) = true ->
  all_pairs_ok ((bs ++ [tip]) ++ [blk]).
Proof.
  intros Hok Hh Hp i prev curr Hprev Hcurr.
  assert (Hi : (S i < List.length ((bs ++ [tip]) ++ [blk]))%nat)
    by (apply nth_error_Some; congruence).
  rewrite length_app in Hi; cbn [List.length] in Hi.
  destruct (Nat.eq_dec (S i) (List.length (bs ++ [tip]))) as [Heq|Hneq].
  - rewrite nth_error_app2, Heq, Nat.sub_diag in Hcurr by lia.
    injection Hcurr as <-.
    rewrite nth_error_app1 in Hprev by lia.
    rewrite length_app in Heq; cbn [List.length] in Heq.
    rewrite nth_error_app2 in Hprev by lia.
    replace (i - List.length bs)%nat with O in Hprev by lia.
    injection Hprev as <-; now split.
  - rewrite nth_error_app1 in Hprev, Hcurr by lia.
    exact (Hok i prev curr Hprev Hcurr).
Qed.

Lemma linked_init (now : pyfloat) : linked (init now).
Proof.
  exists [], (mkBlock 1 now [] 100 "1"); split; [reflexivity|].
  apply all_pairs_ok_single.
Qed.

Lemma linked_step (self self' : Blockchain) :
  linked self -> step self self' -> linked self'.
Proof.
  intros (pre & tip & Hchain & Hok) Hstep.
  destruct Hstep as [node_id now fuel self blk self' Hrun | tx self idx self' Hrun].
  - rewrite (mine_blocks node_id now fuel self pre tip Hchain) in Hrun.
    unfold proof_of_work in Hrun.
    destruct (proof_of_work_loop fuel (proof tip) 0) as [p| |] eqn:Hpow;
      try discriminate.
    destruct (proof_of_work_loop_sound _ _ _ _ Hpow) as (_ & Hv & _).
    cbv zeta in Hrun; injection Hrun as <- <-.
    exists (pre ++ [tip]), (mined node_id now self pre tip p).
    split; [reflexivity|].
    apply all_pairs_ok_snoc; [assumption | reflexivity | exact Hv].
  - rewrite (new_transaction_blocks tx self pre tip Hchain) in Hrun.
    injection Hrun as _ <-.
    exists pre, tip; split; assumption.
Qed.

Lemma reachable_linked (self : Blockchain) : reachable self -> linked self.
Proof.
  induction 1 as [now | self self' _ IH Hstep];
    [apply linked_init | exact (linked_step _ _ IH Hstep)].
Qed.

Lemma linked_valid_chain (self : Blockchain) :
  linked self -> valid_chain (chain self) = Ok true.
Proof.
  intros (pre & tip & -> & Hok).
  destruct (snoc_cons_last pre tip) as (b & bs & Hsplit & _).
  rewrite Hsplit in *.
  unfold blocks_of; cbn [map]; rewrite valid_chain_walk.
  destruct (walk_blocks bs b) as (v & -> & Hiff).
  f_equal; now apply Hiff.
Qed.

(** C1. Whatever sequence of [mine()] and [submit_transaction()] calls is
    applied to a freshly constructed ledger, [valid_chain] returns true on
    the resulting chain. *)
Theorem mined_chain_valid (self : Blockchain) :
  reachable self -> valid_chain (chain self) = Ok true.
Proof.
  intros H; apply linked_valid_chain, reachable_linked, H.
Qed.

Lemma mined_chain_valid_witness :
  valid_chain
    (chain (mkBlockchain (blocks_of [genesis]) [mkTransaction "alice" "bob" 5] []))
  = Ok true.
Proof.
  apply mined_chain_valid.
  apply (reach_step (init t0)); [apply reach_init|].
  apply (step_submit (mkTransaction "alice" "bob" 5) (init t0) 2); reflexivity.
Defined.

(** The theorem is not about the genesis block alone: a first block can be
    mined on it, and the two-block chain is reachable. *)
Lemma mined_chain_exists :
  exists (self : Blockchain) (blk : Block),
    reachable self /\ chain self = blocks_of [genesis; blk] /\
    valid_proof 100 (proof blk) = true /\
    valid_chain (chain self) = Ok true.
Proof.
  destruct (proof_of_work_terminates 100) as (p & fuel0 & _ & Hrun & Hv & _).
  { exists 35293; split; [lia | exact valid_proof_100_35293]. }
  pose (blk := mined sample_node_id t1 (init t0) [] genesis p).
  pose (self' := mkBlockchain (blocks_of [genesis; blk]) [] []).
  assert (Hreach : reachable self').
  { apply (reach_step (init t0)); [apply reach_init|].
    apply (step_mine sample_node_id t1 fuel0 (init t0) blk self').
    rewrite (mine_blocks sample_node_id t1 fuel0 (init t0) [] genesis eq_refl).
    cbn [proof genesis]; rewrite (Hrun fuel0 (le_n _)); reflexivity. }
  exists self', blk; repeat split; [exact Hreach | exact Hv |].
  apply linked_valid_chain, reachable_linked, Hreach.
Qed.

(* ================================================================== *)
(** ** Consensus: [resolve_conflicts]                                  *)
(* ================================================================== *)

(** [resolve_conflicts] in terms of its loop. *)
Lemma resolve_conflicts_unfold (get : string -> response) (self : Blockchain) :
  resolve_conflicts get self =
  match py_len (chain self) with
  | Ok n =>
      match resolve_loop get (nodes self) (PInt n) None with
      | Ok (_, Some new_chain) =>
          if py_truthy new_chain then (Ok true, set_chain new_chain self)
          else (Ok false, self)
      | Ok (_, None) => (Ok false, self)
      | Raise e => (Raise e, self)
      | OutOfFuel => (OutOfFuel, self)
      end
  | Raise e => (Raise e, self)
  | OutOfFuel => (OutOfFuel, self)
  end.
Proof.
  unfold resolve_conflicts, bind, gets, lift, modify, ret.
  destruct (py_len (chain self)) as [n| |]; try reflexivity.
  destruct (resolve_loop get (nodes self) (PInt n) None) as [[m [c|]]| |];
    try reflexivity.
  cbn [snd]; destruct (py_truthy c); reflexivity.
Qed.

(** [resolve_conflicts] has no unbounded loop: it returns or it raises. *)
Lemma resolve_loop_total (get : string -> response) :
  forall (neighbours : list string) (max_length : pyval) (new_chain : option pyval),
    resolve_loop get neighbours max_length new_chain <> OutOfFuel.
Proof.
  induction neighbours as [|node rest IH]; intros m c; cbn [resolve_loop];
    [discriminate|].
  destruct (get _) as [|code body]; [discriminate|].
  destruct (code =? 200); [|apply IH].
  destruct body as [body|]; cbn [json rbind]; [|discriminate].
  destruct body; cbn [py_getkey rbind]; try discriminate.
  destruct (assoc "chain" d) as [ch|]; cbn [rbind]; [|discriminate].
  destruct (assoc "length" d) as [len|]; cbn [rbind]; [|discriminate].
  unfold py_gt.
  destruct (py_number len), (py_number m); cbn [rbind]; try discriminate.
  destruct (fval_gt f f0); cbn [rbind]; [|apply IH].
  pose proof (valid_chain_total ch) as Htotal.
  destruct (valid_chain ch) as [[|]| |]; cbn [rbind];
    [apply IH | apply IH | discriminate | congruence].
Qed.

Lemma resolve_conflicts_total (get : string -> response) (self : Blockchain) :
  fst (resolve_conflicts get self) <> OutOfFuel.
Proof.
  rewrite resolve_conflicts_unfold.
  destruct (py_len (chain self)) as [n| |] eqn:Hn; cbn [fst]; try discriminate.
  - pose proof (resolve_loop_total get (nodes self) (PInt n) None) as Htotal.
    destruct (resolve_loop get (nodes self) (PInt n) None) as [[m [c|]]| |];
      cbn [fst]; try discriminate; try congruence.
    destruct (py_truthy c); discriminate.
  - destruct (chain self); discriminate.
Qed.

(** C10. [resolve()] touches the chain only: whatever the peers answer and
    whatever the outcome (replaced, not replaced, or an exception), the
    pending pool and the peer set are as they were. *)
Theorem resolve_frame (get : string -> response) (self : Blockchain) :
  current_transactions (snd (resolve_conflicts get self))
    = current_transactions self /\
  nodes (snd (resolve_conflicts get self)) = nodes self.
Proof.
  rewrite resolve_conflicts_unfold.
  destruct (py_len (chain self)) as [n| |]; try (split; reflexivity).
  destruct (resolve_loop get (nodes self) (PInt n) None) as [[m [c|]]| |];
    try (split; reflexivity).
  destruct (py_truthy c); split; reflexivity.
Qed.

(** The loop over a list of peers in two parts. *)
Lemma resolve_loop_app (get : string -> response) :
  forall (pre post : list string) (max_length : pyval) (new_chain : option pyval),
    resolve_loop get (pre ++ post) max_length new_chain =
    let* r := resolve_loop get pre max_length new_chain in
    resolve_loop get post (fst r) (snd r).
Proof.
  induction pre as [|node pre IH]; intros post m c; [reflexivity|].
  cbn [app resolve_loop].
  destruct (get ("http://" +++ node +++ "/chain")) as [|code body]; [reflexivity|].
  destruct (code =? 200); [|apply IH].
  destruct (let* j := json body in py_getkey j "chain") as [ch| |]; try reflexivity.
  destruct (let* j := json body in py_getkey j "length") as [len| |]; try reflexivity.
  cbn [rbind].
  destruct (py_gt len m) as [longer| |]; try reflexivity.
  cbn [rbind].
  destruct (if longer then valid_chain ch else Ok false) as [ok| |]; try reflexivity.
  cbn [rbind]; destruct ok; apply IH.
Qed.

(** A peer that answers with a status other than 200 is passed over. *)
Lemma resolve_loop_skip (get : string -> response) (node : string)
    (post : list string) (code : Z) (body : option pyval)
    (max_length : pyval) (new_chain : option pyval) :
  get (chain_url node) = Response code body -> code <> 200 ->
  resolve_loop get (node :: post) max_length new_chain =
  resolve_loop get post max_length new_chain.
Proof.
  unfold chain_url; intros Hget Hcode; cbn [resolve_loop]; rewrite Hget.
  now apply Z.eqb_neq in Hcode as ->.
Qed.

(** A peer whose request raises ends the loop with that exception. *)
Lemma resolve_loop_failed (get : string -> response) (node : string)
    (post : list string) (max_length : pyval) (new_chain : option pyval) :
  get (chain_url node) = Failed ->
  resolve_loop get (node :: post) max_length new_chain = Raise RequestException.
Proof.
  unfold chain_url; intros Hget; cbn [resolve_loop]; now rewrite Hget.
Qed.

(** C7 (amended to the two kinds of failure the code tells apart). A peer
    that answers with a status other than 200 is skipped: [resolve()] gives
    the result, and leaves the chain, it would without that peer in the
    peer set.  A peer whose request raises (network error) is not skipped:
    once the peers before it have been scanned, [resolve()] raises that
    error and the ledger is unchanged. *)
Theorem resolve_failed_fetch (get : string -> response) (self : Blockchain)
    (pre : list string) (node : string) (post : list string) :
  nodes self = pre ++ node :: post ->
  (forall (code : Z) (body : option pyval),
      get (chain_url node) = Response code body -> code <> 200 ->
      fst (resolve_conflicts get self)
        = fst (resolve_conflicts get (set_nodes (pre ++ post) self)) /\
      chain (snd (resolve_conflicts get self))
        = chain (snd (resolve_conflicts get (set_nodes (pre ++ post) self)))) /\
  (get (chain_url node) = Failed ->
   (exists replaced : bool,
       fst (resolve_conflicts get (set_nodes pre self)) = Ok replaced) ->
   resolve_conflicts get self = (Raise RequestException, self)).
Proof.
  intros Hnodes; split.
  - intros code body Hget Hcode.
    rewrite !resolve_conflicts_unfold.
    cbn [set_nodes chain nodes]; rewrite Hnodes.
    destruct (py_len (chain self)) as [n| |]; try (split; reflexivity).
    rewrite !resolve_loop_app.
    destruct (resolve_loop get pre (PInt n) None) as [[m c]| |];
      try (split; reflexivity).
    cbn [rbind fst snd].
    rewrite (resolve_loop_skip get node post code body m c Hget Hcode).
    destruct (resolve_loop get post m c) as [[m' [c'|]]| |];
      try (split; reflexivity).
    destruct (py_truthy c'); split; reflexivity.
  - intros Hget (replaced & Hpre).
    rewrite resolve_conflicts_unfold in Hpre |- *.
    cbn [set_nodes chain nodes] in Hpre; rewrite Hnodes.
    destruct (py_len (chain self)) as [n| |]; try discriminate.
    rewrite resolve_loop_app.
    destruct (resolve_loop get pre (PInt n) None) as [[m c]| |];
      try discriminate.
    cbn [rbind fst snd].
    now rewrite (resolve_loop_failed get node post m c Hget).
Qed.

Lemma resolve_failed_fetch_witness :
  let self := mkBlockchain (blocks_of [genesis]) [] ["10.0.0.2:5000"] in
  fst (resolve_conflicts get_unavailable self)
    = fst (resolve_conflicts get_unavailable (set_nodes [] self)) /\
  chain (snd (resolve_conflicts get_unavailable self))
    = chain (snd (resolve_conflicts get_unavailable (set_nodes [] self))).
Proof.
  intros self.
  apply (proj1 (resolve_failed_fetch get_unavailable self [] "10.0.0.2:5000" []
                  eq_refl) 503 None); [reflexivity | lia].
Defined.

(** A network error on the only peer: [resolve()] raises. *)
Lemma resolve_network_error_raises :
  let self := mkBlockchain (blocks_of [genesis]) [] ["10.0.0.3:5000"] in
  get_unavailable (chain_url "10.0.0.3:5000") = Failed /\
  resolve_conflicts get_unavailable self = (Raise RequestException, self).
Proof. split; reflexivity. Qed.

(** A list with a parsed JSON object in second place cannot be validated:
    the object has no attribute [previous_hash]. *)
Lemma valid_chain_parsed_raises (x : pyval) (d : list (string * pyval))
    (rest : list pyval) :
  valid_chain (PList (x :: PDict d :: rest)) = Raise AttributeError.
Proof.
  unfold valid_chain; cbn [py_getitem].
  rewrite (seq_item_nth _ 0 x) by reflexivity.
  cbn [rbind py_len List.length].
  rewrite Nat2Z.id; cbn [valid_chain_loop py_len rbind].
  replace (1 <? Z.of_nat (List.length (x :: PDict d :: rest))) with true
    by (symmetry; apply Z.ltb_lt; cbn [List.length]; lia).
  cbn [py_getitem].
  rewrite (seq_item_nth _ 1 (PDict d)) by reflexivity.
  reflexivity.
Qed.

(** So is every chain of two blocks or more, once it has gone through
    [GET /chain]. *)
Lemma valid_chain_served_raises (b c : Block) (bs : list Block) :
  valid_chain (wire (blocks_of (b :: c :: bs))) = Raise AttributeError.
Proof.
  unfold blocks_of; cbn [map wire]; apply valid_chain_parsed_raises.
Qed.

(** A peer that serves two blocks or more and reports a length above the
    running maximum stops the loop with [AttributeError]. *)
Lemma resolve_loop_served_raises (get : string -> response) (node : string)
    (rest : list string) (max_length : pyval) (new_chain : option pyval)
    (b c : Block) (bs : list Block) (len : pyval) :
  get (chain_url node)
    = Response 200 (Some (PDict [("chain", wire (blocks_of (b :: c :: bs)));
                                 ("length", len)])) ->
  py_gt len max_length = Ok true ->
  resolve_loop get (node :: rest) max_length new_chain = Raise AttributeError.
Proof.
  unfold chain_url; intros Hget Hgt; cbn [resolve_loop]; rewrite Hget.
  cbn [Z.eqb Pos.eqb json rbind].
  change (py_getkey (PDict [("chain", wire (blocks_of (b :: c :: bs)));
                            ("length", len)]) "chain")
    with (Ok (A := pyval) (wire (blocks_of (b :: c :: bs)))).
  change (py_getkey (PDict [("chain", wire (blocks_of (b :: c :: bs)));
                            ("length", len)]) "length")
    with (Ok (A := pyval) len).
  cbn [rbind]; rewrite Hgt; cbn [rbind].
  now rewrite valid_chain_served_raises.
Qed.

(** C2, at the input where the code departs from it. The local ledger is
    fresh (one block); its only peer serves the two-block chain
    [genesis; block2] with length 2. The served chain is longer than the
    local one and, as a sequence of blocks, passes the validator; yet
    [resolve()] neither adopts it nor returns: it raises [AttributeError]
    and the local chain stays. *)
Theorem resolve_longer_valid_peer_raises :
  let self := mkBlockchain (blocks_of [genesis]) [] ["10.0.0.2:5000"] in
  let peer := mkBlockchain (blocks_of [genesis; block2]) [] [] in
  let body := PDict [("chain", wire (chain peer)); ("length", PInt 2)] in
  served peer = Some body /\
  valid_chain (chain peer) = Ok true /\
  py_len (chain self) = Ok 1 /\
  py_gt (PInt 2) (PInt 1) = Ok true /\
  resolve_conflicts (get_body "10.0.0.2:5000" body) self
    = (Raise AttributeError, self).
Proof.
  intros self peer body.
  split; [reflexivity|].
  split; [vm_compute; reflexivity|].
  split; [reflexivity|].
  split; [reflexivity|].
  rewrite resolve_conflicts_unfold.
  cbn [self chain nodes blocks_of map py_len List.length Z.of_nat Pos.of_succ_nat].
  rewrite (resolve_loop_served_raises _ "10.0.0.2:5000" [] (PInt 1) None
             genesis block2 [] (PInt 2)); [reflexivity | | reflexivity].
  unfold get_body; now rewrite String.eqb_refl.
Qed.

(** C8. Adoption goes by the length the peer reports, not by the number of
    blocks it sends: here the local chain has two blocks, the peer sends a
    one-block chain (which passes the validator) and reports a length of 5,
    and [resolve()] replaces the local chain by the shorter one and returns
    true. *)
Theorem resolve_adopts_shorter_chain :
  exists (self : Blockchain) (get : string -> response) (node : string)
         (fetched : pyval) (reported : Z),
    nodes self = [node] /\
    get (chain_url node)
      = Response 200 (Some (PDict [("chain", fetched); ("length", PInt reported)])) /\
    py_len (chain self) = Ok 2 /\
    valid_chain (chain self) = Ok true /\
    py_len fetched = Ok 1 /\
    valid_chain fetched = Ok true /\
    2 < reported /\
    resolve_conflicts get self = (Ok true, set_chain fetched self).
Proof.
  pose (fetched := PList [block_wire genesis]).
  exists (mkBlockchain (blocks_of [genesis; block2]) [] ["10.0.0.2:5000"]).
  exists (get_body "10.0.0.2:5000" (PDict [("chain", fetched); ("length", PInt 5)])).
  exists "10.0.0.2:5000", fetched, 5.
  repeat split; try reflexivity; vm_compute; reflexivity.
Qed.

(** *** What does hold of [resolve_conflicts] *)

Lemma fval_gt_trans (a b : fval) (r : Q) :
  fval_gt a b = true -> fval_gt b (Finite r) = true -> fval_gt a (Finite r) = true.
Proof.
  destruct a as [p| | |], b as [q| | |]; cbn [fval_gt]; try discriminate;
    try reflexivity.
  rewrite !negb_true_iff; intros Hpq Hqr.
  apply not_true_iff_false; rewrite Qle_bool_iff; apply Qlt_not_le.
  apply Qlt_trans with q; apply Qnot_le_lt; rewrite <- Qle_bool_iff; congruence.
Qed.

Lemma py_gt_above (len m : pyval) (n : Z) :
  py_gt len m = Ok true -> above n m -> py_gt len (PInt n) = Ok true.
Proof.
  intros Hgt [-> | Hm]; [assumption|].
  unfold py_gt in *; cbn [py_number] in *.
  destruct (py_number len) as [a|], (py_number m) as [b|]; try discriminate.
  injection Hgt as Hgt; injection Hm as Hm.
  now rewrite (fval_gt_trans a b _ Hgt Hm).
Qed.

(** A chain the loop selects was served with status 200 by a peer, with
    a reported length above the local one, and passed [valid_chain]. *)
Lemma resolve_loop_selects (get : string -> response) (n : Z) :
  forall (neighbours : list string) (m : pyval) (c : option pyval)
         (m' : pyval) (fetched : pyval),
    above n m ->
    resolve_loop get neighbours m c = Ok (m', Some fetched) ->
    c = Some fetched \/
    exists (node : string) (len : pyval),
      In node neighbours /\ answers get node fetched len /\
      py_gt len (PInt n) = Ok true /\ valid_chain fetched = Ok true.
Proof.
  induction neighbours as [|node rest IH]; intros m c m' fetched Hm Hrun.
  - cbn [resolve_loop] in Hrun; injection Hrun as _ ->; now left.
  - assert (Hrest : forall m0 c0,
               above n m0 ->
               resolve_loop get rest m0 c0 = Ok (m', Some fetched) ->
               c0 = Some fetched \/
               exists (node0 : string) (len : pyval),
                 In node0 (node :: rest) /\ answers get node0 fetched len /\
                 py_gt len (PInt n) = Ok true /\ valid_chain fetched = Ok true).
    { intros m0 c0 Hm0 H0.
      destruct (IH _ _ _ _ Hm0 H0) as [->|(node0 & len & Hin & H)];
        [now left | right; exists node0, len; split; [now right | exact H]]. }
    cbn [resolve_loop] in Hrun.
    destruct (get ("http://" +++ node +++ "/chain")) as [|code body] eqn:Hget;
      [discriminate|].
    destruct (code =? 200) eqn:Hcode; [|now apply (Hrest m c)].
    apply Z.eqb_eq in Hcode; subst code.
    destruct body as [body|]; [|discriminate].
    cbn [json rbind] in Hrun.
    destruct (py_getkey body "chain") as [ch| |] eqn:Hch; try discriminate.
    destruct (py_getkey body "length") as [len| |] eqn:Hlen; try discriminate.
    cbn [rbind] in Hrun.
    destruct (py_gt len m) as [longer| |] eqn:Hgt; try discriminate.
    cbn [rbind] in Hrun.
    destruct longer; cbn [rbind] in Hrun; [|now apply (Hrest m c)].
    destruct (valid_chain ch) as [ok| |] eqn:Hvalid; try discriminate.
    cbn [rbind] in Hrun.
    destruct ok; [|now apply (Hrest m c)].
    assert (Hlen_n : py_gt len (PInt n) = Ok true) by exact (py_gt_above _ _ _ Hgt Hm).
    destruct (Hrest len (Some ch) (or_intror Hlen_n) Hrun) as [Heq|H];
      [injection Heq as <- | right; exact H].
    right; exists node, len; split; [now left|].
    split; [exists body; repeat split; assumption | split; assumption].
Qed.

(** When [resolve()] reports a replacement, the new chain is one a peer
    served with a reported length strictly above the local length, and it
    passed [valid_chain]. *)
Lemma resolve_replaced_sound (get : string -> response) (self self' : Blockchain) :
  resolve_conflicts get self = (Ok true, self') ->
  exists (n : Z) (node : string) (len : pyval),
    py_len (chain self) = Ok n /\
    In node (nodes self) /\ answers get node (chain self') len /\
    py_gt len (PInt n) = Ok true /\ valid_chain (chain self') = Ok true.
Proof.
  rewrite resolve_conflicts_unfold.
  destruct (py_len (chain self)) as [n| |]; try discriminate.
  destruct (resolve_loop get (nodes self) (PInt n) None) as [[m [c|]]| |] eqn:Hrun;
    try discriminate.
  destruct (py_truthy c); [|discriminate].
  intros [= <-].
  destruct (resolve_loop_selects get n _ _ _ _ _ (or_introl eq_refl) Hrun)
    as [|(node & len & Hin & H)]; [discriminate|].
  exists n, node, len; split; [reflexivity | split; [exact Hin | exact H]].
Qed.

(** When every peer answers, and none reports a length above the local
    one (an equal length included), nothing is adopted: [resolve()] returns
    false and the ledger is as it was. *)
Lemma resolve_no_longer_peer (get : string -> response) (self : Blockchain) (n : Z) :
  py_len (chain self) = Ok n ->
  (forall node, In node (nodes self) ->
     exists fetched len,
       answers get node fetched len /\ py_gt len (PInt n) = Ok false) ->
  resolve_conflicts get self = (Ok false, self).
Proof.
  intros Hn Hall; rewrite resolve_conflicts_unfold, Hn.
  assert (Hloop : resolve_loop get (nodes self) (PInt n) None = Ok (PInt n, None)).
  { induction (nodes self) as [|node rest IH]; [reflexivity|].
    destruct (Hall node (or_introl eq_refl))
      as (fetched & len & (body & Hget & Hch & Hlen) & Hgt).
    unfold chain_url in Hget; cbn [resolve_loop]; rewrite Hget.
    cbn [Z.eqb Pos.eqb json rbind]; rewrite Hch, Hlen; cbn [rbind].
    rewrite Hgt; cbn [rbind].
    apply IH; intros node' Hin; apply Hall; now right. }
  now rewrite Hloop.
Qed.

(** A fresh ledger holds the genesis block alone; a submitted transaction
    is announced for block 2, and the block mined next carries it, followed
    by the reward. *)
Example fresh_ledger :
  fst (get_full_chain (init t0))
  = Ok (PDict [("chain", PList [PBlock (mkBlock 1 t0 [] 100 "1")]);
               ("length", PInt 1)]).
Proof. reflexivity. Qed.

Example submit_then_mine :
  let tx := mkTransaction "alice" "bob" 5 in
  exists self1 : Blockchain,
    new_transaction tx (init t0) = (Ok 2, self1) /\
    exists (fuel : nat) (blk : Block) (self2 : Blockchain),
      mine sample_node_id t1 fuel self1 = (Ok blk, self2) /\
      chain self2 = blocks_of [genesis; blk] /\
      index blk = 2 /\
      transactions blk = [tx; mkTransaction "0" sample_node_id 1].
Proof.
  intros tx; exists (mkBlockchain (blocks_of [genesis]) [tx] []).
  split; [reflexivity|].
  destruct (proof_of_work_terminates 100) as (p & fuel0 & _ & Hrun & _).
  { exists 35293; split; [lia | exact valid_proof_100_35293]. }
  exists fuel0.
  rewrite (mine_blocks sample_node_id t1 fuel0
             (mkBlockchain (blocks_of [genesis]) [tx] []) [] genesis eq_refl).
  cbn [proof genesis]; rewrite (Hrun fuel0 (le_n _)).
  do 2 eexists; split; [reflexivity|].
  repeat split.
Qed.

(** A peer that serves a chain exactly as long as the local one. *)
Example resolve_equal_length :
  let self := mkBlockchain (blocks_of [genesis]) [] ["10.0.0.2:5000"] in
  let body := PDict [("chain", PList [block_wire genesis]); ("length", PInt 1)] in
  resolve_conflicts (get_body "10.0.0.2:5000" body) self = (Ok false, self).
Proof. reflexivity. Qed.

(* ================================================================== *)
(** ** The shape of mined chains                                       *)
(* ================================================================== *)

Lemma init_blocks (now : pyfloat) :
  init now = mkBlockchain (blocks_of [genesis_at now]) [] [].
Proof. reflexivity. Qed.

(** What one completed call does to a ledger whose chain is a list of
    blocks. *)
Lemma step_blocks (self self' : Blockchain) (pre : list Block) (tip : Block) :
  chain self = blocks_of (pre ++ [tip]) ->
  step self self' ->
  (exists tx : Transaction,
      self' = set_current_transactions (current_transactions self ++ [tx]) self) \/
  (exists (node_id : string) (now : pyfloat) (p : Z),
      first_proof (proof tip) p /\
      self' = mkBlockchain
                (blocks_of ((pre ++ [tip]) ++ [mined node_id now self pre tip p]))
                [] (nodes self)).
Proof.
  intros Hchain Hstep.
  destruct Hstep as [node_id now fuel self blk self' Hrun | tx self idx self' Hrun].
  - right.
    rewrite (mine_blocks node_id now fuel self pre tip Hchain) in Hrun.
    unfold proof_of_work in Hrun.
    destruct (proof_of_work_loop fuel (proof tip) 0) as [p| |] eqn:Hpow;
      try discriminate.
    pose proof (proof_of_work_loop_sound _ _ _ _ Hpow) as Hfirst.
    cbv zeta in Hrun; injection Hrun as _ <-.
    exists node_id, now, p; split; [exact Hfirst | reflexivity].
  - left.
    rewrite (new_transaction_blocks tx self pre tip Hchain) in Hrun.
    injection Hrun as _ <-.
    exists tx; reflexivity.
Qed.

(** Induction over the ledgers reached from a fresh one, in terms of
    their blocks and their pool. *)
Lemma reachable_invariant (P : list Block -> list Transaction -> Prop) :
  (forall now, P [genesis_at now] []) ->
  (forall pre tip pool tx, P (pre ++ [tip]) pool -> P (pre ++ [tip]) (pool ++ [tx])) ->
  (forall pre tip pool node_id now p,
      P (pre ++ [tip]) pool ->
      first_proof (proof tip) p ->
      P ((pre ++ [tip]) ++
         [mkBlock (Z.of_nat (List.length (pre ++ [tip])) + 1) now
                  (pool ++ [reward node_id]) p (hash_block tip)]) []) ->
  forall self, reachable self ->
    exists pre tip,
      chain self = blocks_of (pre ++ [tip]) /\
      P (pre ++ [tip]) (current_transactions self).
Proof.
  intros Hinit Hsubmit Hmine self Hreach.
  induction Hreach as [now | self self' _ IH Hstep].
  - exists [], (genesis_at now); split; [reflexivity | apply Hinit].
  - destruct IH as (pre & tip & Hchain & HP).
    destruct (step_blocks self self' pre tip Hchain Hstep)
      as [(tx & ->) | (node_id & now & p & Hv & ->)].
    + exists pre, tip; split; [exact Hchain | apply Hsubmit, HP].
    + exists (pre ++ [tip]), (mined node_id now self pre tip p).
      split; [reflexivity | exact (Hmine _ _ _ node_id now p HP Hv)].
Qed.

Lemma indexed_snoc (bs : list Block) (blk : Block) :
  indexed bs -> index blk = Z.of_nat (List.length bs) + 1 -> indexed (bs ++ [blk]).
Proof.
  intros Hbs Hblk i b Hi.
  destruct (Nat.lt_ge_cases i (List.length bs)) as [Hlt|Hge].
  - rewrite nth_error_app1 in Hi by assumption; now apply Hbs.
  - rewrite nth_error_app2 in Hi by assumption.
    destruct (i - List.length bs)%nat as [|k] eqn:Hk.
    + injection Hi as <-; rewrite Hblk; f_equal; lia.
    + destruct k; discriminate.
Qed.

Lemma reachable_indexed (self : Blockchain) :
  reachable self ->
  exists pre tip, chain self = blocks_of (pre ++ [tip]) /\ indexed (pre ++ [tip]).
Proof.
  apply (reachable_invariant (fun bs _ => indexed bs)).
  - intros now [|[|i]] b Hi; try discriminate.
    injection Hi as <-; reflexivity.
  - intros; assumption.
  - intros pre tip pool node_id now p Hbs _.
    apply indexed_snoc; [assumption | reflexivity].
Qed.

Lemma indexed_tip (pre : list Block) (tip : Block) :
  indexed (pre ++ [tip]) -> index tip = Z.of_nat (List.length (pre ++ [tip])).
Proof.
  intros H.
  rewrite (H (List.length pre) tip)
    by (rewrite nth_error_app2, Nat.sub_diag by lia; reflexivity).
  rewrite length_app; cbn [List.length]; lia.
Qed.

Lemma snoc_not_nil {A : Type} (pre : list A) (x : A) : pre ++ [x] <> [].
Proof. destruct pre; discriminate. Qed.

Ltac sample_reachable :=
  apply (reach_step (init t0));
  [ apply reach_init | apply (step_submit sample_tx (init t0) 2); reflexivity ].

(** X1. On every ledger reached from a fresh one by mining and
    submitting, the chain is a non-empty list of blocks and the block in
    position [i] (counting from 0) has index [i + 1]. *)
Theorem reachable_indices (self : Blockchain) :
  reachable self ->
  exists bs : list Block,
    chain self = blocks_of bs /\ bs <> [] /\
    forall (i : nat) (b : Block),
      nth_error bs i = Some b -> index b = Z.of_nat i + 1.
Proof.
  intros H; destruct (reachable_indexed self H) as (pre & tip & Hchain & Hidx).
  exists (pre ++ [tip]); split; [exact Hchain | split; [apply snoc_not_nil | exact Hidx]].
Qed.

Lemma reachable_indices_witness :
  exists bs : list Block,
    chain sample_ledger = blocks_of bs /\ bs <> [] /\
    forall (i : nat) (b : Block),
      nth_error bs i = Some b -> index b = Z.of_nat i + 1.
Proof. apply reachable_indices; sample_reachable. Defined.

(** X2. On such a ledger [new_transaction] does not raise: it returns
    the length of the chain plus one, puts the transaction last in the pool
    and leaves the chain and the peer set alone. *)
Theorem new_transaction_reachable (tx : Transaction) (self : Blockchain) :
  reachable self ->
  exists bs : list Block,
    chain self = blocks_of bs /\
    new_transaction tx self =
    (Ok (Z.of_nat (List.length bs) + 1),
     mkBlockchain (chain self) (current_transactions self ++ [tx]) (nodes self)).
Proof.
  intros H; destruct (reachable_indexed self H) as (pre & tip & Hchain & Hidx).
  exists (pre ++ [tip]); split; [exact Hchain|].
  rewrite (new_transaction_blocks tx self pre tip Hchain).
  now rewrite (indexed_tip pre tip Hidx).
Qed.

Lemma new_transaction_reachable_witness :
  exists bs : list Block,
    chain sample_ledger = blocks_of bs /\
    new_transaction (mkTransaction "carol" "dave" 7) sample_ledger =
    (Ok (Z.of_nat (List.length bs) + 1),
     mkBlockchain (chain sample_ledger)
                  (current_transactions sample_ledger
                   ++ [mkTransaction "carol" "dave" 7])
                  (nodes sample_ledger)).
Proof. apply new_transaction_reachable; sample_reachable. Defined.

Lemma set_current_transactions_same (self : Blockchain) :
  set_current_transactions (current_transactions self) self = self.
Proof. destruct self; reflexivity. Qed.

(** Submitting leaves the chain alone and extends the pool. *)
Lemma submits_blocks (self self' : Blockchain) (pre : list Block) (tip : Block) :
  chain self = blocks_of (pre ++ [tip]) ->
  submits self self' ->
  exists later : list Transaction,
    self' = set_current_transactions (current_transactions self ++ later) self.
Proof.
  intros Hchain Hsub; induction Hsub as [self | tx idx self self1 self2 Hrun _ IH].
  - exists []; now rewrite app_nil_r, set_current_transactions_same.
  - rewrite (new_transaction_blocks tx self pre tip Hchain) in Hrun.
    injection Hrun as _ <-.
    destruct (IH Hchain) as (later & ->).
    exists (tx :: later); cbn [set_current_transactions chain current_transactions nodes].
    now rewrite <- app_assoc.
Qed.

(** The handler of [POST /transactions] on a chain of blocks. *)
Lemma app_new_transaction_blocks (tx : Transaction) (self : Blockchain)
    (pre : list Block) (tip : Block) :
  chain self = blocks_of (pre ++ [tip]) ->
  app.new_transaction tx self =
  (Ok (PDict [("message",
               PStr ("Transaction will be added to Block "
                     +++ str_of_int (index tip + 1)))]),
   set_current_transactions (current_transactions self ++ [tx]) self).
Proof.
  intros Hchain; unfold app.new_transaction, bind.
  now rewrite (new_transaction_blocks tx self pre tip Hchain).
Qed.

(** X3. The announcement of [POST /transactions] is kept: whatever else is
    submitted afterwards, the block mined next has the index the message
    named, and its transactions are the pool as it was, the transaction,
    the later ones in order, and the reward. *)
Theorem announced_block_kept (tx : Transaction) (node_id : string) (now : pyfloat)
    (fuel : nat) (self s1 s2 s3 : Blockchain) (msg : pyval) (blk : Block) :
  reachable self ->
  app.new_transaction tx self = (Ok msg, s1) ->
  submits s1 s2 ->
  mine node_id now fuel s2 = (Ok blk, s3) ->
  msg = PDict [("message",
                PStr ("Transaction will be added to Block "
                      +++ str_of_int (index blk)))] /\
  exists later : list Transaction,
    transactions blk =
    current_transactions self ++ [tx] ++ later ++ [reward node_id].
Proof.
  intros Hreach Hsubmit Hlater Hmine.
  destruct (reachable_indexed self Hreach) as (pre & tip & Hchain & Hidx).
  rewrite (app_new_transaction_blocks tx self pre tip Hchain) in Hsubmit.
  injection Hsubmit as <- <-.
  destruct (submits_blocks
              (set_current_transactions (current_transactions self ++ [tx]) self)
              s2 pre tip Hchain Hlater) as (later & ->).
  rewrite (mine_blocks node_id now fuel _ pre tip) in Hmine by exact Hchain.
  destruct (proof_of_work fuel (proof tip)) as [p| |]; try discriminate.
  cbv zeta in Hmine; injection Hmine as <- _.
  split.
  - cbn [mined index]; now rewrite (indexed_tip pre tip Hidx).
  - exists later; cbn [mined transactions set_current_transactions
                       current_transactions].
    now rewrite <- !app_assoc.
Qed.

(** A first block can be mined on the genesis block, whatever the pool. *)
Lemma mine_on_genesis (node_id : string) (now : pyfloat)
    (pool : list Transaction) (peers : list string) :
  exists (fuel : nat) (blk : Block) (self' : Blockchain),
    mine node_id now fuel (mkBlockchain (blocks_of [genesis]) pool peers)
    = (Ok blk, self').
Proof.
  destruct (proof_of_work_terminates 100) as (p & fuel0 & _ & Hrun & _).
  { exists 35293; split; [lia | exact valid_proof_100_35293]. }
  exists fuel0.
  rewrite (mine_blocks node_id now fuel0
             (mkBlockchain (blocks_of [genesis]) pool peers) [] genesis eq_refl).
  cbn [proof genesis]; rewrite (Hrun fuel0 (le_n _)).
  do 2 eexists; reflexivity.
Qed.

Lemma announced_block_kept_witness :
  exists (fuel : nat) (blk : Block) (s3 : Blockchain),
    mine sample_node_id t1 fuel
         (mkBlockchain (blocks_of [genesis])
                       [sample_tx; mkTransaction "carol" "dave" 7] [])
      = (Ok blk, s3) /\
    PDict [("message", PStr "Transaction will be added to Block 2")]
    = PDict [("message",
              PStr ("Transaction will be added to Block "
                    +++ str_of_int (index blk)))].
Proof.
  destruct (mine_on_genesis sample_node_id t1
              [sample_tx; mkTransaction "carol" "dave" 7] [])
    as (fuel & blk & s3 & Hmine).
  exists fuel, blk, s3; split; [exact Hmine|].
  refine (proj1 (announced_block_kept (mkTransaction "carol" "dave" 7)
                   sample_node_id t1 fuel sample_ledger _ _ s3 _ blk _ eq_refl
                   (submits_refl _) Hmine)).
  sample_reachable.
Defined.

(** Calls only ever add blocks after the ones that are there. *)
Lemma steps_blocks (self self' : Blockchain) :
  steps self self' ->
  forall (pre : list Block) (tip : Block),
    chain self = blocks_of (pre ++ [tip]) ->
    exists extra : list Block,
      chain self' = blocks_of ((pre ++ [tip]) ++ extra).
Proof.
  induction 1 as [self | self self1 self2 Hstep _ IH]; intros pre tip Hchain.
  - exists []; now rewrite app_nil_r.
  - destruct (step_blocks self self1 pre tip Hchain Hstep)
      as [(tx & ->) | (node_id & now & p & _ & ->)].
    + exact (IH pre tip Hchain).
    + destruct (IH (pre ++ [tip]) (mined node_id now self pre tip p) eq_refl)
        as (extra & Hextra).
      exists (mined node_id now self pre tip p :: extra).
      rewrite Hextra, <- app_assoc; reflexivity.
Qed.

(** X4. The chain is append-only under mining and submitting: after any
    number of calls, the blocks that were there are still there, unchanged
    and in the same places, followed by the blocks mined since. *)
Theorem chain_append_only (self self' : Blockchain) :
  reachable self -> steps self self' ->
  exists (bs extra : list Block),
    chain self = blocks_of bs /\ chain self' = blocks_of (bs ++ extra).
Proof.
  intros Hreach Hsteps.
  destruct (reachable_indexed self Hreach) as (pre & tip & Hchain & _).
  destruct (steps_blocks self self' Hsteps pre tip Hchain) as (extra & Hextra).
  exists (pre ++ [tip]), extra; split; assumption.
Qed.

Lemma chain_append_only_witness :
  exists (bs extra : list Block),
    chain (init t0) = blocks_of bs /\ chain sample_ledger = blocks_of (bs ++ extra).
Proof.
  apply chain_append_only; [apply reach_init|].
  apply (steps_cons (init t0) sample_ledger); [|apply steps_refl].
  apply (step_submit sample_tx (init t0) 2); reflexivity.
Defined.

Lemma blocks_in_blocks_of (bs : list Block) : blocks_in (blocks_of bs) = bs.
Proof.
  unfold blocks_in, blocks_of.
  induction bs as [|b bs IH]; cbn [map flat_map app]; congruence.
Qed.

(** X5. No transaction is lost, duplicated or reordered by mining.  Read
    as one list (the transactions of the blocks in chain order, then the
    pool), the ledger grows at its end only: by the transaction when one
    is submitted, by the reward when a block is mined. *)
Theorem ledger_transactions_grow (self : Blockchain) :
  reachable self ->
  (forall (tx : Transaction) (idx : Z) (self' : Blockchain),
      new_transaction tx self = (Ok idx, self') ->
      ledger_transactions self' = ledger_transactions self ++ [tx]) /\
  (forall (node_id : string) (now : pyfloat) (fuel : nat) (blk : Block)
          (self' : Blockchain),
      mine node_id now fuel self = (Ok blk, self') ->
      ledger_transactions self' = ledger_transactions self ++ [reward node_id]).
Proof.
  intros Hreach.
  destruct (reachable_indexed self Hreach) as (pre & tip & Hchain & _).
  split.
  - intros tx idx self' Hrun.
    rewrite (new_transaction_blocks tx self pre tip Hchain) in Hrun.
    injection Hrun as _ <-.
    unfold ledger_transactions;
      cbn [set_current_transactions chain current_transactions].
    now rewrite app_assoc.
  - intros node_id now fuel blk self' Hrun.
    rewrite (mine_blocks node_id now fuel self pre tip Hchain) in Hrun.
    destruct (proof_of_work fuel (proof tip)) as [p| |]; try discriminate.
    cbv zeta in Hrun; injection Hrun as _ <-.
    unfold ledger_transactions; cbn [chain current_transactions].
    rewrite Hchain, !blocks_in_blocks_of, flat_map_app, app_nil_r.
    cbn [flat_map mined transactions]; rewrite app_nil_r, <- app_assoc.
    reflexivity.
Qed.

Lemma ledger_transactions_grow_witness :
  ledger_transactions
    (snd (new_transaction (mkTransaction "carol" "dave" 7) sample_ledger))
  = ledger_transactions sample_ledger ++ [mkTransaction "carol" "dave" 7].
Proof.
  refine (proj1 (ledger_transactions_grow sample_ledger _)
                (mkTransaction "carol" "dave" 7) 2 _ eq_refl).
  sample_reachable.
Defined.

(** X6. Every chain built by mining starts with the genesis block (index
    1, no transaction, proof 100, previous hash ["1"]), and every block after
    it ends with a reward transaction (sender ["0"], amount 1). *)
Theorem genesis_then_rewards (self : Blockchain) :
  reachable self ->
  exists (now : pyfloat) (rest : list Block),
    chain self = blocks_of (genesis_at now :: rest) /\
    forall b : Block, In b rest ->
      exists (node_id : string) (body : list Transaction),
        transactions b = body ++ [reward node_id].
Proof.
  intros Hreach.
  destruct (reachable_invariant
              (fun bs _ =>
                 exists (now : pyfloat) (rest : list Block),
                   bs = genesis_at now :: rest /\
                   forall b : Block, In b rest ->
                     exists (node_id : string) (body : list Transaction),
                       transactions b = body ++ [reward node_id]))
    with (self := self) as (pre & tip & Hchain & now & rest & Hbs & Hrest).
  - intros now; exists now, []; split; [reflexivity | intros b []].
  - intros; assumption.
  - intros pre tip pool node_id now p (now0 & rest & -> & Hrest) _.
    exists now0, (rest ++ [mkBlock (Z.of_nat (List.length (genesis_at now0 :: rest)) + 1)
                                   now (pool ++ [reward node_id]) p (hash_block tip)]).
    split; [reflexivity|].
    intros b Hin; apply in_app_or in Hin as [Hin | [<- | []]];
      [now apply Hrest | exists node_id, pool; reflexivity].
  - exact Hreach.
  - exists now, rest; split; [now rewrite Hchain, Hbs | exact Hrest].
Qed.

Lemma genesis_then_rewards_witness :
  exists (now : pyfloat) (rest : list Block),
    chain sample_ledger = blocks_of (genesis_at now :: rest) /\
    forall b : Block, In b rest ->
      exists (node_id : string) (body : list Transaction),
        transactions b = body ++ [reward node_id].
Proof. apply genesis_then_rewards; sample_reachable. Defined.

(* ================================================================== *)
(** ** What the validator looks at                                     *)
(* ================================================================== *)

(** On a non-empty list of blocks the validator answers, and it answers
    true exactly when all adjacent pairs pass. *)
Lemma valid_chain_true_iff (bs : list Block) :
  bs <> [] ->
  (valid_chain (blocks_of bs) = Ok true <-> all_pairs_ok bs) /\
  (valid_chain (blocks_of bs) = Ok true \/ valid_chain (blocks_of bs) = Ok false).
Proof.
  destruct bs as [|b bs]; [congruence | intros _].
  unfold blocks_of; cbn [map]; rewrite valid_chain_walk.
  destruct (walk_blocks bs b) as (v & -> & Hiff).
  split.
  - rewrite <- Hiff; split; [now intros [= ->] | now intros ->].
  - destruct v; [now left | now right].
Qed.

Lemma all_pairs_ok_segment (pre mid post : list Block) :
  all_pairs_ok (pre ++ mid ++ post) -> all_pairs_ok mid.
Proof.
  intros H i prev curr Hprev Hcurr.
  apply (H (List.length pre + i)%nat).
  - rewrite nth_error_app2 by lia.
    replace (List.length pre + i - List.length pre)%nat with i by lia.
    rewrite nth_error_app1 by (apply nth_error_Some; congruence); exact Hprev.
  - rewrite nth_error_app2 by lia.
    replace (S (List.length pre + i) - List.length pre)%nat with (S i) by lia.
    rewrite nth_error_app1 by (apply nth_error_Some; congruence); exact Hcurr.
Qed.

(** X7. The validator accepts every non-empty run of consecutive blocks
    of a chain it accepts: in particular a chain cut off at the front, which
    no longer starts with the genesis block. *)
Theorem valid_chain_segment (pre mid post : list Block) :
  mid <> [] ->
  valid_chain (blocks_of (pre ++ mid ++ post)) = Ok true ->
  valid_chain (blocks_of mid) = Ok true.
Proof.
  intros Hmid Hvalid.
  apply (valid_chain_true_iff mid Hmid).
  apply (all_pairs_ok_segment pre mid post).
  apply (valid_chain_true_iff (pre ++ mid ++ post)); [|exact Hvalid].
  destruct pre; [destruct mid; [congruence | discriminate] | discriminate].
Qed.

Lemma valid_chain_segment_witness :
  valid_chain (blocks_of [block2]) = Ok true.
Proof.
  apply (valid_chain_segment [genesis] [block2] []); [discriminate|].
  vm_compute; reflexivity.
Defined.

(** X8. Tampering is noticed everywhere but at the tip: in a chain the
    validator accepts, replacing a block that has a successor by one with
    another hash makes the validator answer false. *)
Theorem valid_chain_tamper (pre : list Block) (b b' c : Block) (post : list Block) :
  valid_chain (blocks_of (pre ++ b :: c :: post)) = Ok true ->
  hash_block b' <> hash_block b ->
  valid_chain (blocks_of (pre ++ b' :: c :: post)) = Ok false.
Proof.
  intros Hvalid Hhash.
  apply (valid_chain_true_iff (pre ++ b :: c :: post)) in Hvalid;
    [|destruct pre; discriminate].
  destruct (valid_chain_true_iff (pre ++ b' :: c :: post)) as [Hiff [Ht|Hf]];
    [destruct pre; discriminate | | exact Hf].
  exfalso; apply Hhash.
  apply Hiff in Ht.
  destruct (Hvalid (List.length pre) b c) as [Hc _];
    [ now rewrite nth_error_app2, Nat.sub_diag by lia
    | rewrite nth_error_app2 by lia;
      now replace (S (List.length pre) - List.length pre)%nat with 1%nat by lia |].
  destruct (Ht (List.length pre) b' c) as [Hc' _];
    [ now rewrite nth_error_app2, Nat.sub_diag by lia
    | rewrite nth_error_app2 by lia;
      now replace (S (List.length pre) - List.length pre)%nat with 1%nat by lia |].
  congruence.
Qed.

Lemma valid_chain_tamper_witness :
  valid_chain
    (blocks_of [mkBlock 1 t0 [mkTransaction "0" "mallory" 1000] 100 "1"; block2])
  = Ok false.
Proof.
  apply (valid_chain_tamper [] genesis _ block2 []);
    [vm_compute; reflexivity | vm_compute; discriminate].
Defined.

(** X9. The tip is not protected: in a chain the validator accepts, the
    last block can be replaced by any block with the same proof and the same
    [previous_hash] (other transactions, another index, another
    timestamp) and the validator still answers true. *)
Theorem valid_chain_tip_unprotected (pre : list Block) (tip tip' : Block) :
  valid_chain (blocks_of (pre ++ [tip])) = Ok true ->
  proof tip' = proof tip ->
  previous_hash tip' = previous_hash tip ->
  valid_chain (blocks_of (pre ++ [tip'])) = Ok true.
Proof.
  intros Hvalid Hproof Hprev.
  apply (valid_chain_true_iff (pre ++ [tip])) in Hvalid; [|apply snoc_not_nil].
  apply (valid_chain_true_iff (pre ++ [tip'])); [apply snoc_not_nil|].
  intros i prev curr Hi HSi.
  assert (Hlen : (S i < List.length (pre ++ [tip']))%nat)
    by (apply nth_error_Some; congruence).
  rewrite length_app in Hlen; cbn [List.length] in Hlen.
  rewrite nth_error_app1 in Hi by lia.
  destruct (Nat.eq_dec (S i) (List.length pre)) as [Heq|Hneq].
  - rewrite nth_error_app2, Heq, Nat.sub_diag in HSi by lia.
    injection HSi as <-.
    rewrite Hproof, Hprev.
    apply (Hvalid i prev tip).
    + now rewrite nth_error_app1 by lia.
    + now rewrite nth_error_app2, Heq, Nat.sub_diag by lia.
  - rewrite nth_error_app1 in HSi by lia.
    apply (Hvalid i prev curr); now rewrite nth_error_app1 by lia.
Qed.

Lemma valid_chain_tip_unprotected_witness :
  valid_chain
    (blocks_of [genesis;
                mkBlock 7 t0 [mkTransaction "0" "mallory" 1000] 35293
                        (hash_block genesis)])
  = Ok true.
Proof.
  apply (valid_chain_tip_unprotected [genesis] block2);
    [vm_compute; reflexivity | reflexivity | reflexivity].
Defined.

Lemma hexdigest_length (msg : list Z) :
  String.length (SHA256.hexdigest msg) = 64%nat.
Proof. reflexivity. Qed.

(** X10. A hash is 64 characters long, so a block whose [previous_hash]
    has another length (the ["1"] of a genesis block, say) is accepted in
    first place only: anywhere else it makes the validator answer false. *)
Theorem valid_chain_previous_hash_length (bs : list Block) (i : nat) (b : Block) :
  nth_error bs (S i) = Some b ->
  String.length (previous_hash b) <> 64%nat ->
  valid_chain (blocks_of bs) = Ok false.
Proof.
  intros Hb Hlen.
  assert (Hne : bs <> []) by (destruct bs; [discriminate | congruence]).
  destruct (valid_chain_true_iff bs Hne) as [Hiff [Ht|Hf]]; [|exact Hf].
  exfalso; apply Hlen.
  destruct (nth_error bs i) as [prev|] eqn:Hprev.
  - destruct (proj1 Hiff Ht i prev b Hprev Hb) as [-> _].
    apply hexdigest_length.
  - apply nth_error_None in Hprev.
    assert (S i < List.length bs)%nat by (apply nth_error_Some; congruence).
    lia.
Qed.

Lemma valid_chain_previous_hash_length_witness :
  valid_chain (blocks_of [block2; genesis]) = Ok false.
Proof.
  apply (valid_chain_previous_hash_length [block2; genesis] 0 genesis);
    [reflexivity | cbn; lia].
Defined.

(** A list whose second element is not a block cannot be validated. *)
Lemma valid_chain_second_not_block (x y : pyval) (rest : list pyval) :
  (forall b, y <> PBlock b) ->
  valid_chain (PList (x :: y :: rest)) = Raise AttributeError.
Proof.
  intros Hy; unfold valid_chain; cbn [py_getitem].
  rewrite (seq_item_nth _ 0 x) by reflexivity.
  cbn [rbind py_len List.length].
  rewrite Nat2Z.id; cbn [valid_chain_loop py_len rbind].
  replace (1 <? Z.of_nat (List.length (x :: y :: rest))) with true
    by (symmetry; apply Z.ltb_lt; cbn [List.length]; lia).
  cbn [py_getitem].
  rewrite (seq_item_nth _ 1 y) by reflexivity.
  destruct y; try reflexivity.
  now destruct (Hy b).
Qed.

(** Nor can a string of two characters or more. *)
Lemma valid_chain_long_string (a b : ascii) (s : string) :
  valid_chain (PStr (String a (String b s))) = Raise AttributeError.
Proof.
  unfold valid_chain; cbn [py_getitem chars].
  rewrite (seq_item_nth _ 0 (PStr (String a EmptyString))) by reflexivity.
  cbn [rbind py_len String.length].
  rewrite Nat2Z.id; cbn [valid_chain_loop py_len rbind String.length].
  replace (1 <? Z.of_nat (S (S (String.length s)))) with true
    by (symmetry; apply Z.ltb_lt; lia).
  cbn [py_getitem chars].
  rewrite (seq_item_nth _ 1 (PStr (String b EmptyString))) by reflexivity.
  reflexivity.
Qed.

Lemma is_json_not_block (v : pyval) : is_json v = true -> forall b, v <> PBlock b.
Proof. intros H b ->; discriminate. Qed.

(** On a parsed JSON value the validator either answers true, and the
    value is a one-element list or a one-character string, or raises. *)
Lemma valid_chain_json_cases (v : pyval) :
  is_json v = true ->
  (valid_chain v = Ok true /\
   ((exists x, v = PList [x]) \/ (exists c, v = PStr (String c EmptyString))))
  \/
  ((exists e, valid_chain v = Raise e) /\
   ~ ((exists x, v = PList [x]) \/ (exists c, v = PStr (String c EmptyString)))).
Proof.
  intros Hjson.
  destruct v as [| | | |s|l|d|b]; try discriminate;
    try (right; split; [eexists; reflexivity | intros [[x [=]]|[c [=]]]]).
  - destruct s as [|a [|b s]].
    + right; split; [eexists; reflexivity | intros [[x [=]]|[c [=]]]].
    + left; split; [reflexivity | right; now exists a].
    + right; split; [exists AttributeError; apply valid_chain_long_string
                    | intros [[x [=]]|[c [=]]]].
  - destruct l as [|x [|y rest]].
    + right; split; [eexists; reflexivity | intros [[x [=]]|[c [=]]]].
    + left; split; [reflexivity | left; now exists x].
    + right; split; [|intros [[z [=]]|[c [=]]]].
      exists AttributeError; apply valid_chain_second_not_block.
      cbn [is_json forallb] in Hjson.
      apply andb_true_iff in Hjson as [_ Hjson].
      apply andb_true_iff in Hjson as [Hy _].
      now apply is_json_not_block.
Qed.

(** X11. What the validator makes of a parsed JSON value, which is what
    [resolve_conflicts] hands it: it never answers false; it answers true on
    a list of exactly one element (whatever the element) and on a string of
    exactly one character, and raises on everything else. *)
Theorem valid_chain_json (v : pyval) :
  is_json v = true ->
  (valid_chain v = Ok true <->
   (exists x, v = PList [x]) \/ (exists c, v = PStr (String c EmptyString))) /\
  valid_chain v <> Ok false /\
  (~ ((exists x, v = PList [x]) \/ (exists c, v = PStr (String c EmptyString))) ->
   exists e : exn, valid_chain v = Raise e).
Proof.
  intros Hjson.
  destruct (valid_chain_json_cases v Hjson) as [[Ht Hshape] | [[e He] Hshape]].
  - rewrite Ht; repeat split; try discriminate; try (intros; assumption).
    intros Hnot; now destruct (Hnot Hshape).
  - rewrite He; repeat split; try discriminate;
      try (intros; exfalso; now apply Hshape).
    intros _; now exists e.
Qed.

Lemma valid_chain_json_witness :
  valid_chain (PList [block_wire genesis; block_wire block2]) <> Ok false.
Proof.
  exact (proj1 (proj2 (valid_chain_json
                         (PList [block_wire genesis; block_wire block2]) eq_refl))).
Defined.

(* ================================================================== *)
(** ** What [resolve_conflicts] can and cannot do                      *)
(* ================================================================== *)

Lemma assoc_is_json (k : string) (d : list (string * pyval)) (v : pyval) :
  forallb (fun kv => is_json (snd kv)) d = true ->
  assoc k d = Some v -> is_json v = true.
Proof.
  induction d as [|[k' x] d IH]; cbn [assoc forallb snd]; [discriminate|].
  intros H; apply andb_true_iff in H as [Hx Hd].
  destruct (String.eqb k k'); [now intros [= <-] | now apply IH].
Qed.

Lemma py_getkey_is_json (body : pyval) (k : string) (v : pyval) :
  is_json body = true -> py_getkey body k = Ok v -> is_json v = true.
Proof.
  destruct body; cbn [py_getkey]; try discriminate.
  intros Hd; destruct (assoc k d) as [x|] eqn:Hk; [|discriminate].
  intros [= <-]; exact (assoc_is_json k d x Hd Hk).
Qed.

Lemma py_gt_int (a b : Z) : py_gt (PInt a) (PInt b) = Ok (b <? a).
Proof.
  unfold py_gt, py_number, fval_gt, Qle_bool, inject_Z; cbn [Qnum Qden].
  now rewrite !Z.mul_1_r, Z.ltb_antisym.
Qed.

Lemma set_chain_same (self : Blockchain) : set_chain (chain self) self = self.
Proof. destruct self; reflexivity. Qed.

(** A replacement changes the chain and nothing else. *)
Lemma resolve_replaced_state (get : string -> response) (self self' : Blockchain) :
  resolve_conflicts get self = (Ok true, self') ->
  self' = set_chain (chain self') self.
Proof.
  rewrite resolve_conflicts_unfold.
  destruct (py_len (chain self)) as [n| |]; try discriminate.
  destruct (resolve_loop get (nodes self) (PInt n) None) as [[m [c|]]| |];
    try discriminate.
  destruct (py_truthy c); [|discriminate].
  now intros [= <-].
Qed.

(** In a world of JSON answers, a chain that replaces the local one is a
    one-element list or a one-character string. *)
Lemma resolve_replaced_shape (get : string -> response) (self self' : Blockchain) :
  json_world get ->
  resolve_conflicts get self = (Ok true, self') ->
  is_json (chain self') = true /\
  ((exists x, chain self' = PList [x]) \/
   (exists c, chain self' = PStr (String c EmptyString))).
Proof.
  intros Hworld Hrun.
  destruct (resolve_replaced_sound get self self' Hrun)
    as (n & node & len & _ & _ & (body & Hget & Hch & _) & _ & Hvalid).
  assert (Hjson : is_json (chain self') = true)
    by (apply (py_getkey_is_json body "chain"); [exact (Hworld _ _ _ Hget) | exact Hch]).
  split; [exact Hjson|].
  destruct (valid_chain_json_cases _ Hjson) as [[_ Hshape] | [[e He] _]];
    [exact Hshape | congruence].
Qed.

(** X12. With peers that answer in JSON, [resolve()] replaces the chain
    only by a one-element list (or a one-character string), served with
    status 200 by a registered peer together with a reported length above
    the local length; pool and peers stay as they were. *)
Theorem resolve_replaces_by_one_element (get : string -> response)
    (self self' : Blockchain) :
  json_world get ->
  resolve_conflicts get self = (Ok true, self') ->
  exists (n : Z) (node : string) (len : pyval),
    py_len (chain self) = Ok n /\
    In node (nodes self) /\
    answers get node (chain self') len /\
    py_gt len (PInt n) = Ok true /\
    ((exists x, chain self' = PList [x]) \/
     (exists c, chain self' = PStr (String c EmptyString))) /\
    self' = set_chain (chain self') self.
Proof.
  intros Hworld Hrun.
  destruct (resolve_replaced_sound get self self' Hrun)
    as (n & node & len & Hn & Hin & Hans & Hgt & _).
  exists n, node, len; repeat split; try assumption.
  - exact (proj2 (resolve_replaced_shape get self self' Hworld Hrun)).
  - exact (resolve_replaced_state get self self' Hrun).
Qed.

Lemma json_world_get_short (reported : Z) : json_world (get_short reported).
Proof. intros url code body [= _ <-]; reflexivity. Qed.

Lemma resolve_replaces_by_one_element_witness :
  let self := mkBlockchain (blocks_of [genesis; block2]) [sample_tx] ["10.0.0.2:5000"] in
  exists (n : Z) (node : string) (len : pyval),
    py_len (chain self) = Ok n /\
    In node (nodes self) /\
    answers (get_short 5) node (PList [block_wire genesis]) len /\
    py_gt len (PInt n) = Ok true /\
    ((exists x, PList [block_wire genesis] = PList [x]) \/
     (exists c, PList [block_wire genesis] = PStr (String c EmptyString))) /\
    set_chain (PList [block_wire genesis]) self
    = set_chain (PList [block_wire genesis]) self.
Proof.
  intros self.
  apply (resolve_replaces_by_one_element (get_short 5) self
           (set_chain (PList [block_wire genesis]) self)).
  - apply json_world_get_short.
  - vm_compute; reflexivity.
Defined.

(** X13. When every registered peer answers with status 200, a chain and
    a length, and no reported length is above the local length (an equal
    length included), [resolve()] returns false and the ledger is as it
    was. *)
Theorem resolve_keeps_chain_on_ties (get : string -> response) (self : Blockchain)
    (n : Z) :
  py_len (chain self) = Ok n ->
  (forall node, In node (nodes self) ->
     exists fetched len,
       answers get node fetched len /\ py_gt len (PInt n) = Ok false) ->
  resolve_conflicts get self = (Ok false, self).
Proof.
  intros Hn Hall; rewrite resolve_conflicts_unfold, Hn.
  assert (Hloop : resolve_loop get (nodes self) (PInt n) None = Ok (PInt n, None)).
  { induction (nodes self) as [|node rest IH]; [reflexivity|].
    destruct (Hall node (or_introl eq_refl))
      as (fetched & len & (body & Hget & Hch & Hlen) & Hgt).
    unfold chain_url in Hget; cbn [resolve_loop]; rewrite Hget.
    cbn [Z.eqb Pos.eqb json rbind]; rewrite Hch, Hlen; cbn [rbind].
    rewrite Hgt; cbn [rbind].
    apply IH; intros node' Hin; apply Hall; now right. }
  now rewrite Hloop.
Qed.

Lemma resolve_keeps_chain_on_ties_witness :
  let self := mkBlockchain (blocks_of [genesis]) [sample_tx]
                           ["10.0.0.2:5000"; "10.0.0.3:5000"] in
  resolve_conflicts (get_short 1) self = (Ok false, self).
Proof.
  intros self.
  apply (resolve_keeps_chain_on_ties (get_short 1) self 1); [reflexivity|].
  intros node _.
  exists (PList [block_wire genesis]), (PInt 1); split; [|reflexivity].
  eexists; split; [reflexivity | split; reflexivity].
Defined.

Lemma honest_answer_unfold (bs : list Block) :
  honest_answer bs =
  Response 200 (Some (PDict [("chain", wire (blocks_of bs));
                             ("length", PInt (Z.of_nat (List.length bs)))])).
Proof.
  unfold honest_answer, served, get_full_chain, bind, gets, lift, ret, blocks_of.
  cbn [chain py_len fst wire map]; now rewrite length_map.
Qed.

(** The loop over peers that run this program: it passes over the ones
    whose chain is not longer than the local one and raises at the first
    one whose chain is. *)
Lemma resolve_loop_honest (get : string -> response)
    (peer_chain : string -> list Block) (n : nat) (new_chain : option pyval) :
  (1 <= n)%nat ->
  forall neighbours : list string,
    (forall node, In node neighbours ->
                  get (chain_url node) = honest_answer (peer_chain node)) ->
    resolve_loop get neighbours (PInt (Z.of_nat n)) new_chain =
    if forallb (fun node => (List.length (peer_chain node) <=? n)%nat) neighbours
    then Ok (PInt (Z.of_nat n), new_chain)
    else Raise AttributeError.
Proof.
  intros Hn; induction neighbours as [|node rest IH]; intros Hall; [reflexivity|].
  cbn [forallb].
  destruct (Nat.leb_spec (List.length (peer_chain node)) n) as [Hle|Hgt];
    cbn [andb].
  - rewrite <- IH by (intros node' Hin; apply Hall; now right).
    pose proof (Hall node (or_introl eq_refl)) as Hget.
    rewrite honest_answer_unfold in Hget; unfold chain_url in Hget.
    cbn [resolve_loop]; rewrite Hget.
    cbn [Z.eqb Pos.eqb json rbind py_getkey assoc String.eqb Ascii.eqb Bool.eqb].
    rewrite py_gt_int.
    replace (Z.of_nat n <? Z.of_nat (List.length (peer_chain node))) with false
      by (symmetry; apply Z.ltb_ge; lia).
    reflexivity.
  - pose proof (Hall node (or_introl eq_refl)) as Hget.
    destruct (peer_chain node) as [|b [|c bs]] eqn:Hpc;
      cbn [List.length] in Hgt; try lia.
    apply (resolve_loop_served_raises get node rest _ _ b c bs
             (PInt (Z.of_nat (List.length (b :: c :: bs))))).
    + now rewrite Hget, honest_answer_unfold.
    + rewrite py_gt_int; f_equal; apply Z.ltb_lt; cbn [List.length]; lia.
Qed.

(** X14. Among nodes that all run this program, consensus never replaces
    a chain.  If every peer's chain is at most as long as the local one,
    [GET /nodes/resolve] answers that the chain is authoritative; as soon as
    one peer's chain is longer, it raises [AttributeError].  The ledger is
    unchanged either way. *)
Theorem consesus_among_honest_peers (get : string -> response)
    (peer_chain : string -> list Block) (self : Blockchain) (bs : list Block) :
  chain self = blocks_of bs -> bs <> [] ->
  (forall node, In node (nodes self) ->
                get (chain_url node) = honest_answer (peer_chain node)) ->
  app.consesus get self =
  if forallb (fun node => (List.length (peer_chain node) <=? List.length bs)%nat)
             (nodes self)
  then (Ok (PDict [("message", PStr "Your chain is authoritative")]), self)
  else (Raise AttributeError, self).
Proof.
  intros Hchain Hne Hall.
  unfold app.consesus, bind; rewrite resolve_conflicts_unfold, Hchain.
  unfold blocks_of; cbn [py_len]; rewrite length_map.
  rewrite (resolve_loop_honest get peer_chain (List.length bs) None)
    by (assumption || (destruct bs; [congruence | cbn [List.length]; lia])).
  destruct (forallb _ (nodes self)); reflexivity.
Qed.

Lemma consesus_among_honest_peers_witness :
  let self := mkBlockchain (blocks_of [genesis]) [sample_tx] ["10.0.0.2:5000"] in
  app.consesus (get_honest [genesis; block2]) self = (Raise AttributeError, self).
Proof.
  intros self.
  apply (consesus_among_honest_peers (get_honest [genesis; block2])
           (fun _ => [genesis; block2]) self [genesis]);
    [reflexivity | discriminate | reflexivity].
Defined.

Lemma seq_item_single (x : pyval) : seq_item [x] (-1) = Ok x.
Proof. reflexivity. Qed.

(** X15. After a replacement the node can neither mine nor take
    transactions: with peers that answer in JSON, once [resolve()] has
    returned true, [mine()] raises [AttributeError] and changes nothing, and
    [new_transaction] raises too, yet has already put the transaction in the
    pool. *)
Theorem stuck_after_replacement (get : string -> response)
    (self self' : Blockchain) :
  json_world get ->
  resolve_conflicts get self = (Ok true, self') ->
  (forall (node_id : string) (now : pyfloat) (fuel : nat),
      mine node_id now fuel self' = (Raise AttributeError, self')) /\
  (forall tx : Transaction,
      exists e : exn,
        new_transaction tx self' =
        (Raise e,
         set_current_transactions (current_transactions self' ++ [tx]) self')).
Proof.
  intros Hworld Hrun.
  destruct (resolve_replaced_shape get self self' Hworld Hrun)
    as (Hjson & [[x Hx] | [c Hc]]).
  - assert (Hxjson : is_json x = true).
    { rewrite Hx in Hjson; cbn [is_json forallb] in Hjson.
      now apply andb_true_iff in Hjson as [Hjson _]. }
    split.
    + intros node_id now fuel.
      unfold mine, bind, last_block, lift; rewrite Hx.
      cbn [py_getitem]; rewrite seq_item_single.
      destruct x; try discriminate; reflexivity.
    + intros tx.
      unfold new_transaction, bind, modify, last_block, lift.
      cbn [set_current_transactions chain]; rewrite Hx.
      cbn [py_getitem]; rewrite seq_item_single.
      destruct x; try discriminate; eexists; reflexivity.
  - split.
    + intros node_id now fuel.
      unfold mine, bind, last_block, lift; rewrite Hc; reflexivity.
    + intros tx.
      unfold new_transaction, bind, modify, last_block, lift.
      cbn [set_current_transactions chain]; rewrite Hc.
      eexists; reflexivity.
Qed.

Lemma stuck_after_replacement_witness :
  let self := mkBlockchain (blocks_of [genesis; block2]) [] ["10.0.0.2:5000"] in
  let self' := set_chain (PList [block_wire genesis]) self in
  mine sample_node_id t1 100 self' = (Raise AttributeError, self').
Proof.
  intros self self'.
  apply (stuck_after_replacement (get_short 5) self self').
  - apply json_world_get_short.
  - vm_compute; reflexivity.
Defined.

(** X16. A replacement is not settled by repeating the call: with a single
    peer that answers in JSON and keeps its answer, on a ledger whose
    chain has at least one element, if [resolve()] returns true then the
    next [resolve()] returns true again (and installs the same chain). *)
Theorem resolve_replaces_again (get : string -> response)
    (self self' : Blockchain) (node : string) (n : Z) :
  json_world get ->
  nodes self = [node] ->
  py_len (chain self) = Ok n -> 1 <= n ->
  resolve_conflicts get self = (Ok true, self') ->
  resolve_conflicts get self' = (Ok true, self').
Proof.
  intros Hworld Hnodes Hn Hpos Hrun.
  destruct (resolve_replaced_sound get self self' Hrun)
    as (n' & node' & len & Hn' & Hin & (body & Hget & Hch & Hlen) & Hgt & Hvalid).
  rewrite Hn in Hn'; injection Hn' as <-.
  rewrite Hnodes in Hin; destruct Hin as [<- | []].
  pose proof (resolve_replaced_state get self self' Hrun) as Hstate.
  destruct (resolve_replaced_shape get self self' Hworld Hrun) as (_ & Hshape).
  assert (Hlen1 : py_len (chain self') = Ok 1)
    by (destruct Hshape as [[x ->] | [c ->]]; reflexivity).
  assert (Htruthy : py_truthy (chain self') = true)
    by (destruct Hshape as [[x ->] | [c ->]]; reflexivity).
  assert (Hgt1 : py_gt len (PInt 1) = Ok true).
  { apply (py_gt_above len (PInt n) 1 Hgt).
    destruct (Z.eq_dec n 1) as [->|Hne]; [now left | right].
    rewrite py_gt_int; f_equal; apply Z.ltb_lt; lia. }
  rewrite resolve_conflicts_unfold, Hlen1.
  replace (nodes self') with [node] by (rewrite Hstate; symmetry; exact Hnodes).
  unfold chain_url in Hget; cbn [resolve_loop]; rewrite Hget.
  cbn [Z.eqb Pos.eqb json rbind]; rewrite Hch, Hlen; cbn [rbind].
  rewrite Hgt1; cbn [rbind]; rewrite Hvalid; cbn [rbind].
  rewrite Htruthy; now rewrite set_chain_same.
Qed.

Lemma resolve_replaces_again_witness :
  let self := mkBlockchain (blocks_of [genesis; block2]) [] ["10.0.0.2:5000"] in
  let self' := set_chain (PList [block_wire genesis]) self in
  resolve_conflicts (get_short 5) self' = (Ok true, self').
Proof.
  intros self self'.
  apply (resolve_replaces_again (get_short 5) self self' "10.0.0.2:5000" 2).
  - apply json_world_get_short.
  - reflexivity.
  - reflexivity.
  - lia.
  - vm_compute; reflexivity.
Defined.

(** [resolve()] at the peer [node], once the peers before it have been
    scanned without an exception: an exception of the loop from [node]
    on is the outcome, and the ledger is unchanged. *)
Lemma resolve_conflicts_at (get : string -> response) (self : Blockchain)
    (pre : list string) (node : string) (post : list string) :
  nodes self = pre ++ node :: post ->
  (exists replaced : bool,
      fst (resolve_conflicts get (set_nodes pre self)) = Ok replaced) ->
  exists (max_length : pyval) (new_chain : option pyval),
    forall e : exn,
      resolve_loop get (node :: post) max_length new_chain = Raise e ->
      resolve_conflicts get self = (Raise e, self).
Proof.
  intros Hnodes (replaced & Hpre).
  rewrite resolve_conflicts_unfold in Hpre.
  cbn [set_nodes chain nodes] in Hpre.
  destruct (py_len (chain self)) as [n| |] eqn:Hn; try discriminate.
  destruct (resolve_loop get pre (PInt n) None) as [[m c]| |] eqn:Hscan;
    try discriminate.
  exists m, c; intros e He.
  now rewrite resolve_conflicts_unfold, Hn, Hnodes, resolve_loop_app, Hscan;
    cbn [rbind fst snd]; rewrite He.
Qed.

(** X17. One malformed answer with status 200 aborts [resolve()], with the
    ledger unchanged: a body that is not JSON raises [JSONDecodeError], JSON
    that is not an object raises [TypeError], an object without ["chain"]
    or without ["length"] raises [KeyError], and a ["length"] that is not a
    number raises [TypeError]. *)
Theorem resolve_malformed_answer (get : string -> response) (self : Blockchain)
    (pre : list string) (node : string) (post : list string) :
  nodes self = pre ++ node :: post ->
  (exists replaced : bool,
      fst (resolve_conflicts get (set_nodes pre self)) = Ok replaced) ->
  (get (chain_url node) = Response 200 None ->
   resolve_conflicts get self = (Raise JSONDecodeError, self)) /\
  (forall body : pyval,
      get (chain_url node) = Response 200 (Some body) ->
      (forall d, body <> PDict d) ->
      resolve_conflicts get self = (Raise TypeError, self)) /\
  (forall d : list (string * pyval),
      get (chain_url node) = Response 200 (Some (PDict d)) ->
      assoc "chain" d = None \/ assoc "length" d = None ->
      resolve_conflicts get self = (Raise KeyError, self)) /\
  (forall (d : list (string * pyval)) (fetched len : pyval),
      get (chain_url node) = Response 200 (Some (PDict d)) ->
      assoc "chain" d = Some fetched -> assoc "length" d = Some len ->
      py_number len = None ->
      resolve_conflicts get self = (Raise TypeError, self)).
Proof.
  intros Hnodes Hpre.
  destruct (resolve_conflicts_at get self pre node post Hnodes Hpre)
    as (m & c & Hraise).
  unfold chain_url; repeat split.
  - intros Hget; apply Hraise; cbn [resolve_loop]; now rewrite Hget.
  - intros body Hget Hbody; apply Hraise; cbn [resolve_loop]; rewrite Hget.
    cbn [Z.eqb Pos.eqb json rbind].
    destruct body; try reflexivity; now destruct (Hbody d).
  - intros d Hget Hmissing; apply Hraise; cbn [resolve_loop]; rewrite Hget.
    cbn [Z.eqb Pos.eqb json rbind py_getkey].
    destruct (assoc "chain" d) as [ch|]; [|reflexivity].
    destruct Hmissing as [|Hlen]; [discriminate|].
    now rewrite Hlen.
  - intros d fetched len Hget Hch Hlen Hnum; apply Hraise.
    cbn [resolve_loop]; rewrite Hget.
    cbn [Z.eqb Pos.eqb json rbind py_getkey]; rewrite Hch, Hlen; cbn [rbind].
    unfold py_gt; now rewrite Hnum.
Qed.

Lemma resolve_malformed_answer_witness :
  let self := mkBlockchain (blocks_of [genesis]) [] ["10.0.0.2:5000"] in
  let get := get_body "10.0.0.2:5000"
                      (PDict [("chain", PList [block_wire genesis]);
                              ("length", PStr "5")]) in
  resolve_conflicts get self = (Raise TypeError, self).
Proof.
  intros self get.
  refine (proj2 (proj2 (proj2 (resolve_malformed_answer get self [] "10.0.0.2:5000" []
                                 eq_refl _)))
                _ (PList [block_wire genesis]) (PStr "5") eq_refl eq_refl eq_refl eq_refl).
  exists false; reflexivity.
Defined.

(* ================================================================== *)
(** ** [new_block] without a previous hash, and peer registration      *)
(* ================================================================== *)

(** X18. A [previous_hash] that is missing or falsy (the default [None],
    an empty string, zero) is replaced by the hash of the tip: on a chain of
    blocks [new_block] then appends a block linked to the tip, holding the
    pool, and empties the pool.  On an empty chain it raises [IndexError]
    and changes nothing. *)
Theorem new_block_default_link (now : pyfloat) (p : Z)
    (previous_hash : option pyval) (self : Blockchain) :
  (previous_hash = None \/
   exists x, previous_hash = Some x /\ py_truthy x = false) ->
  (forall (pre : list Block) (tip : Block),
      chain self = blocks_of (pre ++ [tip]) ->
      let blk := mkBlock (Z.of_nat (List.length (pre ++ [tip])) + 1) now
                         (current_transactions self) p (hash_block tip) in
      new_block now p previous_hash self =
      (Ok blk, mkBlockchain (blocks_of ((pre ++ [tip]) ++ [blk])) [] (nodes self))) /\
  (chain self = PList [] ->
   new_block now p previous_hash self = (Raise IndexError, self)).
Proof.
  intros Hfalsy.
  assert (Hor : forall alt, or_else previous_hash alt = alt).
  { intros alt; destruct Hfalsy as [-> | (x & -> & Hx)]; cbn [or_else];
      [reflexivity | now rewrite Hx]. }
  split.
  - intros pre tip Hchain blk.
    pose proof (last_block_blocks self pre tip Hchain) as Hlast.
    unfold last_block in Hlast; injection Hlast as Hlast.
    unfold new_block, bind, gets, modify, lift, ret; rewrite Hor, Hlast.
    cbn [chain set_current_transactions set_chain current_transactions nodes
         rbind hash coerce_str].
    rewrite Hchain; unfold blocks_of; cbn [py_len py_append].
    rewrite length_map, (map_app PBlock (pre ++ [tip])).
    reflexivity.
  - intros Hchain.
    unfold new_block, bind, gets, modify, lift, ret; rewrite Hor, Hchain.
    reflexivity.
Qed.

Lemma new_block_default_link_witness :
  new_block t1 35293 (Some (PStr EmptyString)) sample_ledger =
  (Ok (mkBlock 2 t1 [sample_tx] 35293 (hash_block genesis)),
   mkBlockchain
     (blocks_of [genesis; mkBlock 2 t1 [sample_tx] 35293 (hash_block genesis)])
     [] []).
Proof.
  refine (proj1 (new_block_default_link t1 35293 (Some (PStr EmptyString))
                   sample_ledger _) [] genesis eq_refl).
  right; exists (PStr EmptyString); split; reflexivity.
Defined.

Lemma existsb_eqb_In (x : string) (l : list string) :
  existsb (String.eqb x) l = true <-> In x l.
Proof.
  rewrite existsb_exists; split.
  - intros (y & Hin & Heq); apply String.eqb_eq in Heq; now subst.
  - intros Hin; exists x; split; [exact Hin | apply String.eqb_refl].
Qed.

Lemma set_add_In (x : string) (l : list string) (m : string) :
  In m (set_add x l) <-> m = x \/ In m l.
Proof.
  unfold set_add; destruct (existsb (String.eqb x) l) eqn:Hx.
  - apply existsb_eqb_In in Hx; split; [now right | intros [->|]; assumption].
  - rewrite in_app_iff; cbn [In]; split; [intros [|[<-|[]]] | intros [->|]]; tauto.
Qed.

Lemma set_add_NoDup (x : string) (l : list string) :
  NoDup l -> NoDup (set_add x l).
Proof.
  intros Hl; unfold set_add; destruct (existsb (String.eqb x) l) eqn:Hx;
    [exact Hl|].
  apply NoDup_app; [exact Hl | apply NoDup_cons; [intros [] | apply NoDup_nil] |].
  intros y Hy [<-|[]].
  apply existsb_eqb_In in Hy; congruence.
Qed.

Lemma set_add_present (x : string) (l : list string) : In x l -> set_add x l = l.
Proof. intros H; unfold set_add; now apply existsb_eqb_In in H as ->. Qed.

Lemma set_add_length (x : string) (l : list string) :
  (List.length (set_add x l) <= List.length l + 1)%nat.
Proof.
  unfold set_add; destruct (existsb (String.eqb x) l);
    [lia | rewrite length_app; cbn [List.length]; lia].
Qed.

(** X19. Registering a peer whose address parses to the location [n]:
    [n] is in the peer set afterwards, next to the peers that were there and
    nothing else; the set stays free of duplicates; chain and pool are not
    touched; registering the same address again changes nothing. *)
Theorem register_node_adds (netloc : string -> result string) (address n : string)
    (self : Blockchain) :
  netloc address = Ok n ->
  NoDup (nodes self) ->
  exists self' : Blockchain,
    register_node netloc address self = (Ok tt, self') /\
    chain self' = chain self /\
    current_transactions self' = current_transactions self /\
    NoDup (nodes self') /\
    (forall m, In m (nodes self') <-> m = n \/ In m (nodes self)) /\
    register_node netloc address self' = (Ok tt, self').
Proof.
  intros Hn Hnodup.
  unfold register_node, bind, lift, modify; rewrite Hn.
  eexists; split; [reflexivity|]; cbn [chain current_transactions nodes].
  repeat split; try reflexivity.
  - now apply set_add_NoDup.
  - apply set_add_In.
  - apply set_add_In.
  - rewrite (set_add_present n (set_add n (nodes self)))
      by (apply set_add_In; now left).
    reflexivity.
Qed.

Lemma register_node_adds_witness :
  exists self' : Blockchain,
    register_node sample_netloc "http://10.0.0.2:5000" sample_ledger = (Ok tt, self') /\
    chain self' = chain sample_ledger /\
    current_transactions self' = current_transactions sample_ledger /\
    NoDup (nodes self') /\
    (forall m, In m (nodes self') <-> m = "10.0.0.2:5000" \/ In m (nodes sample_ledger)) /\
    register_node sample_netloc "http://10.0.0.2:5000" self' = (Ok tt, self').
Proof.
  apply register_node_adds; [reflexivity | apply NoDup_nil].
Defined.

(** The loop of [POST /nodes/] when every address parses. *)
Lemma register_each_ok (netloc : string -> result string) :
  forall (addresses : list string) (self : Blockchain),
    (forall a, In a addresses -> exists n, netloc a = Ok n) ->
    NoDup (nodes self) ->
    exists peers : list string,
      app.register_each netloc addresses self =
      (Ok tt, mkBlockchain (chain self) (current_transactions self) peers) /\
      NoDup peers /\
      (forall m, In m peers <->
                 In m (nodes self) \/ exists a, In a addresses /\ netloc a = Ok m) /\
      (List.length peers <= List.length (nodes self) + List.length addresses)%nat /\
      ((forall a, In a addresses -> exists n, netloc a = Ok n /\ In n (nodes self)) ->
       peers = nodes self).
Proof.
  induction addresses as [|a rest IH]; intros self Hparse Hnodup.
  - exists (nodes self); cbn [app.register_each List.length].
    repeat split; try assumption; try lia.
    + destruct self; reflexivity.
    + now left.
    + intros [H | (a & [] & _)]; exact H.
  - destruct (Hparse a (or_introl eq_refl)) as (n & Hn).
    cbn [app.register_each]; unfold bind at 1.
    unfold register_node, bind, lift, modify; rewrite Hn.
    destruct (IH (mkBlockchain (chain self) (current_transactions self)
                               (set_add n (nodes self))))
      as (peers & Hrun & Hnd & Hin & Hlen & Hsame).
    { intros a' Ha'; apply Hparse; now right. }
    { now apply set_add_NoDup. }
    cbn [chain current_transactions nodes] in *.
    exists peers; split; [exact Hrun | split; [exact Hnd | split; [|split]]].
    + intros m; rewrite Hin, set_add_In; split.
      * intros [[-> | H] | (a' & Ha' & Hm)];
          [right; exists a; split; [now left | exact Hn] | now left
          | right; exists a'; split; [now right | exact Hm]].
      * intros [H | (a' & [<- | Ha'] & Hm)];
          [left; now right | left; left; congruence
          | right; exists a'; split; assumption].
    + pose proof (set_add_length n (nodes self)); cbn [List.length]; lia.
    + intros Hall.
      destruct (Hall a (or_introl eq_refl)) as (n' & Hn' & Hin').
      assert (n' = n) by congruence; subst n'.
      rewrite (set_add_present n (nodes self) Hin') in Hsame.
      apply Hsame; intros a' Ha'; apply Hall; now right.
Qed.

(** X20. [POST /nodes/] reports the number of addresses it was given, not
    the number of peers it added.  When every address parses, the message
    counts the addresses; the peer set afterwards holds the old peers and
    the locations of the addresses, without duplicates, so it grows by at
    most that count, and not at all when every location was registered
    already; chain and pool are not touched. *)
Theorem register_new_nodes_count (netloc : string -> result string)
    (addresses : list string) (self : Blockchain) :
  (forall a, In a addresses -> exists n, netloc a = Ok n) ->
  NoDup (nodes self) ->
  exists peers : list string,
    app.register_new_nodes netloc addresses self =
    (Ok (PDict [("message",
                 PStr (str_of_int (Z.of_nat (List.length addresses))
                       +++ " nodes have been added"))]),
     mkBlockchain (chain self) (current_transactions self) peers) /\
    NoDup peers /\
    (forall m, In m peers <->
               In m (nodes self) \/ exists a, In a addresses /\ netloc a = Ok m) /\
    (List.length peers <= List.length (nodes self) + List.length addresses)%nat /\
    ((forall a, In a addresses -> exists n, netloc a = Ok n /\ In n (nodes self)) ->
     peers = nodes self).
Proof.
  intros Hparse Hnodup.
  destruct (register_each_ok netloc addresses self Hparse Hnodup)
    as (peers & Hrun & H).
  exists peers; split; [|exact H].
  unfold app.register_new_nodes, bind; now rewrite Hrun.
Qed.

Lemma register_new_nodes_count_witness :
  app.register_new_nodes sample_netloc
    ["http://10.0.0.2:5000"; "http://10.0.0.2:5000/chain"]
    (mkBlockchain (blocks_of [genesis]) [] ["10.0.0.2:5000"])
  = (Ok (PDict [("message", PStr "2 nodes have been added")]),
     mkBlockchain (blocks_of [genesis]) [] ["10.0.0.2:5000"]).
Proof.
  destruct (register_new_nodes_count sample_netloc
              ["http://10.0.0.2:5000"; "http://10.0.0.2:5000/chain"]
              (mkBlockchain (blocks_of [genesis]) [] ["10.0.0.2:5000"]))
    as (peers & Hrun & _ & _ & _ & Hsame).
  - intros a _; eexists; reflexivity.
  - apply NoDup_cons; [intros [] | apply NoDup_nil].
  - rewrite Hrun; f_equal; f_equal.
    apply Hsame; intros a [<- | [<- | []]]; eexists; split;
      try reflexivity; now left.
Defined.

(* ================================================================== *)
(** ** Mining: all or nothing, and always the same proofs              *)
(* ================================================================== *)

Lemma seq_item_In (l : list pyval) (i : Z) (x : pyval) :
  seq_item l i = Ok x -> In x l.
Proof.
  unfold seq_item.
  destruct (_ && _); [|discriminate].
  destruct (nth_error l _) as [y|] eqn:Hy; [|discriminate].
  intros [= <-]; exact (nth_error_In _ _ Hy).
Qed.

Lemma chars_not_block (s : string) (b : Block) : ~ In (PBlock b) (chars s).
Proof.
  induction s as [|c s IH]; cbn [chars In]; [tauto|].
  intros [H|H]; [discriminate | now apply IH].
Qed.

(** Only a list has a block as its last element. *)
Lemma last_is_block (c : pyval) (b : Block) :
  py_getitem c (-1) = Ok (PBlock b) -> exists l, c = PList l.
Proof.
  destruct c; cbn [py_getitem]; try discriminate.
  - intros H; apply seq_item_In in H; now apply chars_not_block in H.
  - intros _; now exists l.
Qed.

(** X21. [mine()] is all or nothing, on every ledger: either it returns
    a block, appended to the chain, holding the pool and the reward, with
    the pool emptied; or it raises (or its search is cut short) and the
    ledger is exactly as before, with no reward left in the pool. *)
Theorem mine_all_or_nothing (node_id : string) (now : pyfloat) (fuel : nat)
    (self : Blockchain) :
  (exists (blk : Block) (l : list pyval),
      chain self = PList l /\
      mine node_id now fuel self =
      (Ok blk, mkBlockchain (PList (l ++ [PBlock blk])) [] (nodes self)) /\
      transactions blk = current_transactions self ++ [reward node_id]) \/
  (exists r : result Block,
      mine node_id now fuel self = (r, self) /\ forall blk, r <> Ok blk).
Proof.
  destruct (mine node_id now fuel self) as [r self'] eqn:Hrun.
  unfold mine, bind at 1, last_block in Hrun.
  destruct (py_getitem (chain self) (-1)) as [tip| |] eqn:Htip;
    try (injection Hrun as <- <-; right; eexists; split;
         [reflexivity | discriminate]).
  unfold bind at 1, lift at 1 in Hrun.
  destruct tip as [| | | | | | |b]; cbn [getattr_proof] in Hrun;
    try (injection Hrun as <- <-; right; eexists; split;
         [reflexivity | discriminate]).
  unfold bind at 1, lift at 1 in Hrun.
  destruct (proof_of_work fuel (proof b)) as [p| |];
    try (injection Hrun as <- <-; right; eexists; split;
         [reflexivity | discriminate]).
  destruct (last_is_block _ _ Htip) as (l & Hl).
  unfold bind at 1, new_transaction, bind, modify, last_block, lift in Hrun.
  cbn [set_current_transactions chain current_transactions nodes] in Hrun.
  rewrite Htip in Hrun; cbn [index_plus_1 hash] in Hrun.
  unfold new_block, bind, gets, modify, lift, ret, or_else in Hrun.
  cbn [chain set_current_transactions set_chain current_transactions nodes] in Hrun.
  rewrite hash_block_truthy, Hl in Hrun; cbn [py_len coerce_str py_append] in Hrun.
  injection Hrun as <- <-.
  left; do 2 eexists; split; [exact Hl | split; reflexivity].
Qed.

Lemma first_proof_unique (last_proof p q : Z) :
  first_proof last_proof p -> first_proof last_proof q -> p = q.
Proof.
  intros (Hp & Hvp & Hlp) (Hq & Hvq & Hlq).
  destruct (Z.lt_trichotomy p q) as [Hlt | [-> | Hgt]]; [|reflexivity|].
  - rewrite (Hlq p) in Hvp by lia; discriminate.
  - rewrite (Hlp q) in Hvq by lia; discriminate.
Qed.

(** The proofs along a mined chain: 100 first, then each the first proof
    valid after the one before. *)
Lemma reachable_first_proofs (self : Blockchain) :
  reachable self ->
  exists pre tip,
    chain self = blocks_of (pre ++ [tip]) /\
    proof_chain (pre ++ [tip]).
Proof.
  apply (reachable_invariant (fun bs _ => proof_chain bs)).
  - intros now; split.
    + intros b [= <-]; reflexivity.
    + intros [|[|i]] prev curr Hp Hc; discriminate.
  - intros; assumption.
  - intros pre tip pool node_id now p [Hfirst Hnext] Hp; split.
    + intros b Hb; apply Hfirst.
      destruct pre; [injection Hb as <-; reflexivity | exact Hb].
    + intros i prev curr Hprev Hcurr.
      assert (Hi : (S i < List.length ((pre ++ [tip]) ++
                [mkBlock (Z.of_nat (List.length (pre ++ [tip])) + 1) now
                         (pool ++ [reward node_id]) p (hash_block tip)]))%nat)
        by (apply nth_error_Some; congruence).
      rewrite length_app in Hi; cbn [List.length] in Hi.
      destruct (Nat.eq_dec (S i) (List.length (pre ++ [tip]))) as [Heq|Hneq].
      * rewrite nth_error_app2, Heq, Nat.sub_diag in Hcurr by lia.
        injection Hcurr as <-.
        rewrite nth_error_app1 in Hprev by lia.
        rewrite length_app in Heq; cbn [List.length] in Heq.
        rewrite nth_error_app2 in Hprev by lia.
        replace (i - List.length pre)%nat with O in Hprev by lia.
        injection Hprev as <-; exact Hp.
      * rewrite nth_error_app1 in Hprev, Hcurr by lia.
        exact (Hnext i prev curr Hprev Hcurr).
Qed.

Lemma proof_chain_agree (bs bs' : list Block) :
  proof_chain bs -> proof_chain bs' ->
  forall (i : nat) (b b' : Block),
    nth_error bs i = Some b -> nth_error bs' i = Some b' -> proof b = proof b'.
Proof.
  intros [H0 Hnext] [H0' Hnext']; induction i as [|i IH]; intros b b' Hb Hb'.
  - now rewrite (H0 b Hb), (H0' b' Hb').
  - destruct (nth_error bs i) as [prev|] eqn:Hprev;
      [|apply nth_error_None in Hprev;
        assert (S i < List.length bs)%nat by (apply nth_error_Some; congruence); lia].
    destruct (nth_error bs' i) as [prev'|] eqn:Hprev';
      [|apply nth_error_None in Hprev';
        assert (S i < List.length bs')%nat by (apply nth_error_Some; congruence); lia].
    pose proof (Hnext i prev b Hprev Hb) as Hp.
    pose proof (Hnext' i prev' b' Hprev' Hb') as Hp'.
    rewrite (IH prev prev' eq_refl eq_refl) in Hp.
    exact (first_proof_unique _ _ _ Hp Hp').
Qed.

(** X22. The proofs of a mined chain do not depend on what was mined:
    any two ledgers built by mining and submitting, on any nodes, at any
    times, with any transactions, carry the same proof at the same position
    of their chains. *)
Theorem mined_proofs_agree (self self' : Blockchain) :
  reachable self -> reachable self' ->
  forall (i : nat) (b b' : Block),
    nth_error (blocks_in (chain self)) i = Some b ->
    nth_error (blocks_in (chain self')) i = Some b' ->
    proof b = proof b'.
Proof.
  intros H H'.
  destruct (reachable_first_proofs self H) as (pre & tip & -> & Hpc).
  destruct (reachable_first_proofs self' H') as (pre' & tip' & -> & Hpc').
  rewrite !blocks_in_blocks_of.
  exact (proof_chain_agree _ _ Hpc Hpc').
Qed.

Lemma mined_proofs_agree_witness : proof genesis = proof (genesis_at t1).
Proof.
  apply (mined_proofs_agree sample_ledger (init t1)) with (i := O);
    [sample_reachable | apply reach_init | reflexivity | reflexivity].
Defined.
